(** * Document ingestion pipeline ([ingest.py]): a shallow embedding

    The development follows the layout of the source file: the Python
    string primitives the chunker relies on, the chunker
    ([DocumentIngestor.create_chunks]), the embedder and the store writer
    ([generate_embeddings], [store_chunks]), and the orchestrator
    ([extract_text], [process_file], [process_directory]).

    Python [str] values are sequences of Unicode code points, Python
    [int]s are unbounded integers ([Z]), and [dict]s with string keys are
    finite maps ([gmap]).  Exceptions are modelled by a sum type and the
    outside world (log, embedding service, store, clock) by explicit
    state passing. *)

From Stdlib Require Import ZArith NArith List Bool Lia String Ascii Floats.
From stdpp Require Import gmap list fin_maps.
Import ListNotations.

Open Scope Z_scope.

(** ** Python strings *)

(** A character is a Unicode code point. *)
Definition char : Type := N.
Definition str : Type := list char.

(** Reading an ASCII literal of the source as a [str]. *)
Definition py (s : string) : str :=
  List.map N_of_ascii (list_ascii_of_string s).

Arguments py : simpl never.

Definition DOT : char := 46%N.
Definition SPACE : char := 32%N.

(** [len(s)] *)
Definition len {A : Type} (l : list A) : Z := Z.of_nat (length l).

(** Truthiness of a sequence: non-empty. *)
Definition truthy {A : Type} (l : list A) : bool :=
  match l with
  | [] => false
  | _ :: _ => true
  end.

(** [str.isspace] on one code point (CPython's [_PyUnicode_IsWhitespace]). *)
Definition isspace (c : char) : bool :=
  (((9 <=? c) && (c <=? 13)) || ((28 <=? c) && (c <=? 32))
   || (c =? 133) || (c =? 160) || (c =? 5760)
   || ((8192 <=? c) && (c <=? 8202))
   || (c =? 8232) || (c =? 8233) || (c =? 8239) || (c =? 8287)
   || (c =? 12288))%N.

Arguments isspace : simpl never.

(** [s.lstrip()], [s.rstrip()], [s.strip()] *)
Fixpoint lstrip (s : str) : str :=
  match s with
  | [] => []
  | c :: s' => if isspace c then lstrip s' else s
  end.

Definition rstrip (s : str) : str := rev (lstrip (rev s)).

Definition strip (s : str) : str := rstrip (lstrip s).

(** Cutting a string at every character satisfying [p]; the pieces
    between two cuts are kept even when empty, as [s.split(sep)] does. *)
Fixpoint split_when (p : char -> bool) (s : str) : list str :=
  match s with
  | [] => [[]]
  | c :: s' =>
      if p c then [] :: split_when p s'
      else match split_when p s' with
           | [] => [[c]]
           | w :: ws => (c :: w) :: ws
           end
  end.

(** [s.split(sep)] for a one-character separator. *)
Definition split (s : str) (sep : char) : list str :=
  split_when (N.eqb sep) s.

(** [s.split()]: cut at whitespace, runs of whitespace count once and
    no empty word is produced. *)
Definition split_ws (s : str) : list str :=
  List.filter truthy (split_when isspace s).

(** [sep.join(l)] *)
Fixpoint join (sep : str) (l : list str) : str :=
  match l with
  | [] => []
  | [w] => w
  | w :: ws => w ++ sep ++ join sep ws
  end.

(** Slice bounds: a negative index counts from the end, and every index
    is clamped to the sequence. *)
Definition slice_index {A : Type} (l : list A) (i : Z) : nat :=
  Z.to_nat (if i <? 0 then Z.max 0 (i + len l) else Z.min i (len l)).

(** [l[start:]] and [l[start:stop]] *)
Definition slice_from {A : Type} (l : list A) (start : Z) : list A :=
  skipn (slice_index l start) l.

Definition slice {A : Type} (l : list A) (start stop : Z) : list A :=
  firstn (slice_index l stop - slice_index l start)
    (skipn (slice_index l start) l).

(** ** Values, chunks and the ingestor *)

(** The values a metadata mapping holds ([Dict[str, Any]]). *)
Inductive pyval : Type :=
| VNone : pyval
| VBool : bool -> pyval
| VInt : Z -> pyval
| VStr : str -> pyval.

Abbreviation pydict := (gmap str pyval).

Definition k_chunk_index : str := py "chunk_index".

(** A chunk is the dict [{'content': ..., 'metadata': ...}]. *)
Record Chunk : Type := mkChunk {
  content : str;
  metadata : pydict
}.

(** The attributes set by [DocumentIngestor.__init__]. *)
Record DocumentIngestor : Type := mkIngestor {
  chunk_size : Z;
  chunk_overlap : Z;
  batch_size : Z
}.

Definition init : DocumentIngestor :=
  {| chunk_size := 1000; chunk_overlap := 200; batch_size := 10 |}.

(** ** The chunker *)

(** [[s.strip() for s in text.split('.') if s.strip()]] *)
Definition sentences (text : str) : list str :=
  List.map strip
    (List.filter (fun s => truthy (strip s)) (split text DOT)).

(** The chunk appended to [chunks] when a buffer is closed. *)
Definition emit (metadata : pydict) (chunks : list Chunk)
    (current_chunk : str) : Chunk :=
  {| content := strip current_chunk;
     metadata := <[k_chunk_index := VInt (len chunks)]> metadata |}.

(** The overlap seed: [' '.join(current_chunk.split()[-20:])]. *)
Definition overlap (current_chunk : str) : str :=
  let words := split_ws current_chunk in
  let overlap_words := slice_from words (-20) in
  join (py " ") overlap_words.

(** The loop variables of [create_chunks]. *)
Record ChunkState : Type := mkChunkState {
  chunks : list Chunk;
  current_chunk : str;
  current_length : Z
}.

(** One iteration of [for sentence in sentences]. *)
Definition chunk_step (self : DocumentIngestor) (md : pydict)
    (st : ChunkState) (sentence : str) : ChunkState :=
  let sentence_length := len sentence in
  if (current_length st + sentence_length >? chunk_size self)
     && truthy (current_chunk st)
  then
    let chunks' := chunks st ++ [emit md (chunks st) (current_chunk st)] in
    let current_chunk' :=
      overlap (current_chunk st) ++ py ". " ++ sentence in
    {| chunks := chunks';
       current_chunk := current_chunk';
       current_length := len current_chunk' |}
  else
    let current_chunk' :=
      current_chunk st
        ++ (if truthy (current_chunk st) then py ". " else py "")
        ++ sentence in
    {| chunks := chunks st;
       current_chunk := current_chunk';
       current_length := len current_chunk' |}.

Definition chunk_loop (self : DocumentIngestor) (md : pydict)
    (sents : list str) (st : ChunkState) : ChunkState :=
  fold_left (chunk_step self md) sents st.

Definition chunk_init : ChunkState :=
  {| chunks := []; current_chunk := py ""; current_length := 0 |}.

Definition create_chunks (self : DocumentIngestor) (text : str)
    (md : pydict) : list Chunk :=
  let st := chunk_loop self md (sentences text) chunk_init in
  if truthy (strip (current_chunk st))
  then chunks st ++ [emit md (chunks st) (current_chunk st)]
  else chunks st.


(** ** The outside world *)

(** An exception caught by [except Exception]: its class and message. *)
Inductive exn : Type :=
| Exn (kind msg : str).

Definition result (A : Type) : Type := (exn + A)%type.

(** A [pathlib.Path]: the attributes the pipeline reads. *)
Record Path : Type := mkPath {
  path_str : str;      (* str(file_path) *)
  path_name : str;     (* file_path.name *)
  path_parent : str;   (* str(file_path.parent) *)
  path_suffix : str    (* file_path.suffix *)
}.

(** An embedding vector. *)
Abbreviation vector := (list float).

(** One entry of [response['data']]. *)
Record Item : Type := mkItem {
  item_embedding : vector;
  item_index : Z
}.

(** A row of the [document_chunks] table, as built by [store_chunks]. *)
Record Row : Type := mkRow {
  row_content : str;
  row_metadata : pydict;
  row_chunk_index : pyval;
  row_embedding : vector;
  row_created_at : str
}.

Inductive Level : Type := INFO | WARNING | ERROR.

(** The messages the pipeline logs, with their arguments. *)
Inductive LogMsg : Type :=
| UnsupportedFileType (suffix : str)
| ErrorExtractingText (file_path : Path) (e : exn)
| ErrorGeneratingEmbeddings (e : exn)
| StoredChunks (n : Z)
| ErrorStoringChunks (e : exn)
| Processing (file_path : Path)
| EmptyFile (file_path : Path)
| NoChunksCreated (file_path : Path)
| SuccessfullyProcessed (file_path : Path) (n : Z)
| ErrorProcessing (file_path : Path) (e : exn)
| DirectoryNotFound (directory_path : str)
| FoundFiles (n : Z)
| Progress (processed failed : Z)
| Completed (processed failed : Z).

(** What the process does to the outside, in order. *)
Inductive Event : Type :=
| Log (level : Level) (msg : LogMsg)
| EmbeddingRequest (model : str) (input : list str)
| StoreInsert (table : str) (rows : list Row)
| Sleep (milliseconds : Z).

(** The state threaded through the pipeline: the events so far and the
    number of clock readings taken. *)
Record World : Type := mkWorld {
  trace : list Event;
  clock : nat
}.

(** The external collaborators: the format-specific extractors, the
    embedding service, the store, the clock and the file system.  The
    services may answer differently at every call, so they see the world
    in which they are called. *)
Record Env : Type := mkEnv {
  str_lower : str -> str;
  pdf_extract_text : str -> result (option str);
  mammoth_extract_raw_text : Path -> result str;
  image_to_string : Path -> str -> result str;
  read_text : Path -> result str;
  embedding_service : World -> str -> list str -> result (list Item);
  store_service : World -> str -> list Row -> result (list Row);
  strftime : nat -> str -> str;
  path_exists : str -> bool;
  rglob : str -> str -> list Path
}.

(** *** Computations that log, call services and may raise *)

Definition M (A : Type) : Type := World -> result A * World.

Definition ret {A : Type} (a : A) : M A := fun w => (inr a, w).

Definition raise {A : Type} (e : exn) : M A := fun w => (inl e, w).

Definition bind {A B : Type} (m : M A) (k : A -> M B) : M B :=
  fun w =>
    match m w with
    | (inl e, w') => (inl e, w')
    | (inr a, w') => k a w'
    end.

(** [try: body  except Exception as e: handler e] *)
Definition try_except {A : Type} (body : M A) (handler : exn -> M A) : M A :=
  fun w =>
    match body w with
    | (inl e, w') => handler e w'
    | (inr a, w') => (inr a, w')
    end.

Definition lift {A : Type} (r : result A) : M A := fun w => (r, w).

Definition record_event (ev : Event) : M unit :=
  fun w => (inr tt, {| trace := trace w ++ [ev]; clock := clock w |}).

Declare Scope io_scope.
Delimit Scope io_scope with io.
Notation "x <- m ;; k" := (bind m (fun x => k))
  (at level 100, m at next level, right associativity) : io_scope.
Notation "m ;; k" := (bind m (fun _ => k))
  (at level 100, right associativity) : io_scope.
Open Scope io_scope.

Definition logger (level : Level) (msg : LogMsg) : M unit :=
  record_event (Log level msg).

(** [time.strftime(fmt)]: the next reading of the clock. *)
Definition time_strftime (E : Env) (fmt : str) : M str :=
  fun w =>
    (inr (strftime E (clock w) fmt),
     {| trace := trace w; clock := S (clock w) |}).

Definition time_sleep (milliseconds : Z) : M unit :=
  record_event (Sleep milliseconds).

(** [openai.Embedding.create(model=..., input=...)['data']] *)
Definition openai_Embedding_create (E : Env) (model : str)
    (input : list str) : M (list Item) :=
  fun w =>
    (embedding_service E w model input,
     {| trace := trace w ++ [EmbeddingRequest model input];
        clock := clock w |}).

(** [supabase.table(table).insert(rows).execute()] *)
Definition supabase_insert (E : Env) (table : str) (rows : list Row)
    : M (list Row) :=
  fun w =>
    (store_service E w table rows,
     {| trace := trace w ++ [StoreInsert table rows]; clock := clock w |}).

(** [for x in l: body x], stopping at the first exception. *)
Fixpoint for_each {A : Type} (l : list A) (body : A -> M unit) : M unit :=
  match l with
  | [] => ret tt
  | x :: l' => body x ;; for_each l' body
  end.

(** [[f x for x in l]] for an [f] with effects. *)
Fixpoint comprehension {A B : Type} (f : A -> M B) (l : list A)
    : M (list B) :=
  match l with
  | [] => ret []
  | x :: l' =>
      y <- f x ;;
      ys <- comprehension f l' ;;
      ret (y :: ys)
  end.

(** ** Extractor dispatcher *)

Definition str_eqb (a b : str) : bool := bool_decide (a = b).

Definition str_in (a : str) (l : list str) : bool := existsb (str_eqb a) l.

(** [x or ''] *)
Definition or_empty (x : option str) : str :=
  match x with
  | Some s => if truthy s then s else py ""
  | None => py ""
  end.

(** The body of the [try] block of [extract_text]. *)
Definition extract_body (E : Env) (file_path : Path) (ext : str) : M str :=
  if str_eqb ext (py ".pdf") then
    r <- lift (pdf_extract_text E (path_str file_path)) ;;
    ret (or_empty r)
  else if str_eqb ext (py ".docx") then
    lift (mammoth_extract_raw_text E file_path)
  else if str_in ext [py ".png"; py ".jpg"; py ".jpeg"; py ".tiff"] then
    lift (image_to_string E file_path (py "nld+eng"))
  else if str_in ext [py ".txt"; py ".md"] then
    lift (read_text E file_path)
  else
    logger WARNING (UnsupportedFileType (path_suffix file_path)) ;;
    ret (py "").

Definition extract_text (E : Env) (file_path : Path) : M str :=
  let ext := str_lower E (path_suffix file_path) in
  try_except
    (extract_body E file_path ext)
    (fun e =>
       logger ERROR (ErrorExtractingText file_path e) ;;
       ret (py "")).

(** ** Embedder *)

Definition generate_embeddings (E : Env) (texts : list str)
    : M (list vector) :=
  try_except
    (data <- openai_Embedding_create E (py "text-embedding-3-small") texts ;;
     ret (List.map item_embedding data))
    (fun e =>
       logger ERROR (ErrorGeneratingEmbeddings e) ;;
       raise e).

(** ** Store writer *)

(** [chunk_meta.get(key)] *)
Definition dict_get (m : pydict) (key : str) : pyval :=
  match m !! key with
  | Some v => v
  | None => VNone
  end.

(** The row built for one [(chunk, embedding)] pair of the [zip]. *)
Definition build_row (E : Env) (pair : Chunk * vector) : M Row :=
  let '(chunk, embedding) := pair in
  let chunk_meta := metadata chunk in
  created_at <- time_strftime E (py "%Y-%m-%d %H:%M:%S") ;;
  ret {| row_content := content chunk;
         row_metadata :=
           filter (fun kv => kv.1 <> k_chunk_index) chunk_meta;
         row_chunk_index := dict_get chunk_meta k_chunk_index;
         row_embedding := embedding;
         row_created_at := created_at |}.

Definition store_chunks (E : Env) (chunks : list Chunk)
    (embeddings : list vector) : M (list Row) :=
  try_except
    (data_to_insert <- comprehension (build_row E)
                         (combine chunks embeddings) ;;
     result <- supabase_insert E (py "document_chunks") data_to_insert ;;
     logger INFO (StoredChunks (len data_to_insert)) ;;
     ret result)
    (fun e =>
       logger ERROR (ErrorStoringChunks e) ;;
       raise e).

(** ** Pipeline orchestrator *)

(** [range(start, stop, step)]; a zero step raises [ValueError]. *)
Definition py_range (start stop step : Z) : result (list Z) :=
  if step =? 0 then
    inl (Exn (py "ValueError") (py "range() arg 3 must not be zero"))
  else
    let count :=
      if 0 <? step then (stop - start + step - 1) / step
      else (start - stop - step - 1) / (- step) in
    inr (List.map (fun k => start + Z.of_nat k * step)
           (seq 0 (Z.to_nat count))).

Definition process_file (E : Env) (self : DocumentIngestor)
    (file_path : Path) : M bool :=
  try_except
    (logger INFO (Processing file_path) ;;
     text <- extract_text E file_path ;;
     if negb (truthy (strip text)) then
       logger WARNING (EmptyFile file_path) ;;
       ret false
     else
       let metadata : pydict :=
         <[py "file_size" := VInt (len text)]>
           (<[py "directory" := VStr (path_parent file_path)]>
              (<[py "filename" := VStr (path_name file_path)]>
                 (<[py "source" := VStr (path_str file_path)]> ∅))) in
       let chunks := create_chunks self text metadata in
       if negb (truthy chunks) then
         logger WARNING (NoChunksCreated file_path) ;;
         ret false
       else
         starts <- lift (py_range 0 (len chunks) (batch_size self)) ;;
         for_each starts (fun i =>
           let batch := slice chunks i (i + batch_size self) in
           let texts := List.map content batch in
           embeddings <- generate_embeddings E texts ;;
           store_chunks E batch embeddings ;;
           time_sleep 100) ;;
         logger INFO (SuccessfullyProcessed file_path (len chunks)) ;;
         ret true)
    (fun e =>
       logger ERROR (ErrorProcessing file_path e) ;;
       ret false).

Definition supported_extensions : gset str :=
  {[ py ".txt"; py ".md"; py ".pdf"; py ".docx";
     py ".png"; py ".jpg"; py ".jpeg"; py ".tiff" ]}.

(** The files [process_directory] collects: one recursive glob per
    supported extension, concatenated.  Python leaves the order in which
    a set is iterated unspecified; [elements] fixes one, and nothing
    proved below depends on it. *)
Definition find_files (E : Env) (directory_path : str) : list Path :=
  flat_map (fun ext => rglob E directory_path (py "*" ++ ext))
    (elements supported_extensions).

(** The counters of a run. *)
Record Counts : Type := mkCounts {
  processed : Z;
  failed : Z
}.

(** One iteration of [for file_path in files]. *)
Definition file_step (E : Env) (self : DocumentIngestor) (n : Counts)
    (file_path : Path) : M Counts :=
  ok <- process_file E self file_path ;;
  let n' :=
    if ok : bool
    then {| processed := processed n + 1; failed := failed n |}
    else {| processed := processed n; failed := failed n + 1 |} in
  (if (processed n' + failed n') mod 10 =? 0
   then logger INFO (Progress (processed n') (failed n'))
   else ret tt) ;;
  ret n'.

Fixpoint files_loop (E : Env) (self : DocumentIngestor)
    (files : list Path) (n : Counts) : M Counts :=
  match files with
  | [] => ret n
  | file_path :: files' =>
      n' <- file_step E self n file_path ;;
      files_loop E self files' n'
  end.

(** [process_directory] in the runs in which [Path.exists()] and the
    globs return: [path_exists] and [rglob] stand for what they return.
    Neither call is inside a [try], so a refusal of the file system
    ends the run with its [OSError]; [process_directory_fs] below has
    these runs too. *)
Definition process_directory (E : Env) (self : DocumentIngestor)
    (directory_path : str) : M unit :=
  if negb (path_exists E directory_path) then
    logger ERROR (DirectoryNotFound directory_path)
  else
    let files := find_files E directory_path in
    logger INFO (FoundFiles (len files)) ;;
    n <- files_loop E self files {| processed := 0; failed := 0 |} ;;
    logger INFO (Completed (processed n) (failed n)).
(** A string is tight when it is non-empty and neither begins nor ends
    with whitespace. *)
Definition starts_nonspace (s : str) : bool :=
  match s with
  | [] => false
  | c :: _ => negb (isspace c)
  end.

Definition tight (s : str) : Prop :=
  starts_nonspace s = true /\ starts_nonspace (rev s) = true.


(** ** Describing the output of the chunker *)

(** A sentence unit, as [sentences] yields them: tight, without the
    delimiter. *)
Definition sentence_unit (s : str) : Prop :=
  tight s /\ Forall (fun c => N.eqb DOT c = false) s.

(** What a buffer holds before its first sentence unit: nothing for the
    first buffer, the overlap of the chunk closed before it and the
    delimiter for the others. *)
Definition seed (prev : option str) : str :=
  match prev with
  | None => []
  | Some p => overlap p ++ py ". "
  end.

(** The chunk texts obtained from consecutive groups of sentence units:
    each group is rejoined with the delimiter and put after its seed. *)
Fixpoint assemble (prev : option str) (groups : list (list str))
    : list str :=
  match groups with
  | [] => []
  | g :: gs =>
      let c := seed prev ++ join (py ". ") g in
      c :: assemble (Some c) gs
  end.

(** The non-overlap portion of each chunk text: what follows its seed. *)
Fixpoint portions_from (prev : option str) (cs : list str) : list str :=
  match cs with
  | [] => []
  | c :: cs' => skipn (length (seed prev)) c :: portions_from (Some c) cs'
  end.

Definition non_overlap_portions (cs : list str) : list str :=
  portions_from None cs.

(** The seed of each chunk text. *)
Fixpoint seeds_from (prev : option str) (cs : list str) : list str :=
  match cs with
  | [] => []
  | c :: cs' => seed prev :: seeds_from (Some c) cs'
  end.

Definition overlap_seeds (cs : list str) : list str :=
  seeds_from None cs.

(** Putting each portion back after its seed. *)
Definition reseed (seeds portions : list str) : list str :=
  List.map (fun sp => sp.1 ++ sp.2) (combine seeds portions).

(** [last_from prev l]: the last element of [prev :: l]. *)
Definition last_from {A : Type} (prev : option A) (l : list A) : option A :=
  match last l with
  | Some x => Some x
  | None => prev
  end.

(** The size a chunk may have: within the threshold and one delimiter,
    unless it holds a single sentence unit. *)
Definition size_ok (self : DocumentIngestor) (c : str) (g : list str)
    : Prop :=
  len c <= chunk_size self + 2 \/ length g = 1%nat.

(** The loop invariant of [create_chunks]: after the units [sents], the
    closed chunks come from the groups [gs] and the buffer holds the
    group [g]. *)
Record chunk_inv (self : DocumentIngestor) (md : pydict)
    (sents : list str) (st : ChunkState)
    (gs : list (list str)) (g : list str) : Prop := mkChunkInv {
  inv_cover : concat gs ++ g = sents;
  inv_groups : Forall (fun g => g <> []) gs;
  inv_first : g = [] -> gs = [];
  inv_contents : List.map content (chunks st) = assemble None gs;
  inv_current :
    current_chunk st
    = seed (last (List.map content (chunks st))) ++ join (py ". ") g;
  inv_length : current_length st = len (current_chunk st);
  inv_tight : g <> [] -> tight (current_chunk st);
  inv_sizes : Forall2 (size_ok self) (List.map content (chunks st)) gs;
  inv_size :
    len (current_chunk st) <= chunk_size self + 2 \/ (length g <= 1)%nat;
  inv_tights : Forall tight (List.map content (chunks st));
  inv_index :
    forall (i : nat) (c : Chunk),
      chunks st !! i = Some c ->
      metadata c = <[k_chunk_index := VInt (Z.of_nat i)]> md
}.

(** ** Sample inputs *)

(** [s * n] *)
Definition rep (n : nat) (s : str) : str := List.concat (List.repeat s n).

(** Two sentence units of 900 characters each. *)
Definition text_two_long : str :=
  rep 900 (py "a") ++ py "." ++ rep 900 (py "b").

(** Two sentence units of 600 and 400 characters. *)
Definition text_two_fit : str :=
  rep 600 (py "a") ++ py "." ++ rep 400 (py "b").

(** 400 one-letter sentence units, 800 characters in all. *)
Definition text_dense : str := rep 400 (py "a.").

Definition text_short : str := py "Hello world. This is  a test.. Bye".

(** The chunk [text_short] gives. *)
Definition chunk_short : Chunk :=
  {| content := py "Hello world. This is  a test. Bye";
     metadata := <[k_chunk_index := VInt 0]> ∅ |}.

(** The two chunks [text_two_long] gives. *)
Definition chunk_long_0 : Chunk :=
  {| content := rep 900 (py "a");
     metadata := <[k_chunk_index := VInt 0]> ∅ |}.

Definition chunk_long_1 : Chunk :=
  {| content := rep 900 (py "a") ++ py ". " ++ rep 900 (py "b");
     metadata := <[k_chunk_index := VInt 1]> ∅ |}.

(** ** Describing the effects of the pipeline *)

(** [w'] is [w] after some more events. *)
Definition extends (w w' : World) : Prop :=
  exists evs, trace w' = trace w ++ evs.

(** A computation that returns normally or raises, and only adds events
    to the trace. *)
Definition monotone {A : Type} (m : M A) : Prop :=
  forall w, extends w (snd (m w)).

(** A computation that never raises. *)
Definition total {A : Type} (m : M A) : Prop :=
  forall w, exists a, fst (m w) = inr a.

(** The requests sent to the embedding service and to the store. *)
Definition is_service_call (ev : Event) : bool :=
  match ev with
  | EmbeddingRequest _ _ | StoreInsert _ _ => true
  | Log _ _ | Sleep _ => false
  end.

Definition service_calls (tr : list Event) : list Event :=
  List.filter is_service_call tr.

(** The row for a chunk and its embedding, stamped with the clock
    reading number [t]: the metadata loses [chunk_index], which becomes
    a field of the row. *)
Definition row_of (E : Env) (t : nat) (chunk : Chunk) (embedding : vector)
    : Row :=
  {| row_content := content chunk;
     row_metadata := delete k_chunk_index (metadata chunk);
     row_chunk_index := dict_get (metadata chunk) k_chunk_index;
     row_embedding := embedding;
     row_created_at := strftime E t (py "%Y-%m-%d %H:%M:%S") |}.

Fixpoint rows_from (E : Env) (t : nat) (pairs : list (Chunk * vector))
    : list Row :=
  match pairs with
  | [] => []
  | (chunk, embedding) :: pairs' =>
      row_of E t chunk embedding :: rows_from E (S t) pairs'
  end.

(** The world after [k] more clock readings. *)
Definition tick (k : nat) (w : World) : World :=
  {| trace := trace w; clock := (clock w + k)%nat |}.

(** The world after the events [evs]. *)
Definition after (evs : list Event) (w : World) : World :=
  {| trace := trace w ++ evs; clock := clock w |}.

(** The file a step of the run fails on is counted as failed. *)
Definition count_failed (n : Counts) : Counts :=
  {| processed := processed n; failed := failed n + 1 |}.

(** The progress line logged after [n] files, if any. *)
Definition progress_events (n : Counts) : list Event :=
  if (processed n + failed n) mod 10 =? 0
  then [Log INFO (Progress (processed n) (failed n))]
  else [].

(** The counters after a file, given what [process_file] returned. *)
Definition count (n : Counts) (ok : bool) : Counts :=
  if ok
  then {| processed := processed n + 1; failed := failed n |}
  else {| processed := processed n; failed := failed n + 1 |}.


(** ** A sample environment *)

(** [str.lower] on ASCII letters. *)
Definition ascii_lower (s : str) : str :=
  List.map
    (fun c => if ((65 <=? c) && (c <=? 90))%N then (c + 32)%N else c) s.

Definition broken_pdf : Path :=
  {| path_str := py "docs/broken.pdf"; path_name := py "broken.pdf";
     path_parent := py "docs"; path_suffix := py ".pdf" |}.

Definition report_pdf : Path :=
  {| path_str := py "docs/report.pdf"; path_name := py "report.pdf";
     path_parent := py "docs"; path_suffix := py ".pdf" |}.

Definition pdf_syntax_error : exn :=
  Exn (py "PDFSyntaxError") (py "No /Root object").

Definition invalid_request_error : exn :=
  Exn (py "InvalidRequestError") (py "input is empty").

(** One item per input text, numbered in input order. *)
Definition sample_items (input : list str) : list Item :=
  List.map
    (fun i => {| item_embedding := [0.5%float; PrimFloat.of_uint63 (Uint63.of_Z (Z.of_nat i))];
                 item_index := Z.of_nat i |})
    (seq 0 (length input)).

(** A directory [docs] holding a PDF that cannot be parsed and one that
    can, and an empty directory; an embedding service that rejects an
    empty input; a store that accepts every batch. *)
Definition sample_env : Env :=
  {| str_lower := ascii_lower;
     pdf_extract_text := fun path =>
       if str_eqb path (py "docs/broken.pdf") then inl pdf_syntax_error
       else inr (Some text_short);
     mammoth_extract_raw_text := fun _ => inr (py "");
     image_to_string := fun _ _ => inr (py "");
     read_text := fun _ => inr (py "");
     embedding_service := fun _ _ input =>
       if truthy input then inr (sample_items input)
       else inl invalid_request_error;
     store_service := fun _ _ rows => inr rows;
     strftime := fun _ _ => py "2024-05-17 09:30:00";
     path_exists := fun _ => true;
     rglob := fun directory pattern =>
       if str_eqb directory (py "docs") && str_eqb pattern (py "*.pdf")
       then [broken_pdf; report_pdf]
       else [] |}.

Definition world0 : World := {| trace := []; clock := 0 |}.

Definition chunk_bye : Chunk :=
  {| content := py "Bye";
     metadata := <[k_chunk_index := VInt 1]> ∅ |}.

(** ** Further descriptions and samples *)

(** One group per sentence unit. *)
Definition singles (sents : list str) : list (list str) :=
  List.map (fun s => [s]) sents.

(** A metadata mapping that already has a [chunk_index]. *)
Definition md_indexed : pydict :=
  <[k_chunk_index := VStr (py "old")]> (<[py "source" := VStr (py "a.txt")]> ∅).

(** ** The chunker without the [strip()] of its buffer *)

(** [create_chunks] with [current_chunk] written where the source has
    [current_chunk.strip()]: in the chunk appended when a buffer is
    closed, in the test before the final chunk and in the final chunk.
    The [strip()] that makes the sentence units is kept. *)
Definition emit_unstripped (metadata : pydict) (chunks : list Chunk)
    (current_chunk : str) : Chunk :=
  {| content := current_chunk;
     metadata := <[k_chunk_index := VInt (len chunks)]> metadata |}.

Definition chunk_step_unstripped (self : DocumentIngestor) (md : pydict)
    (st : ChunkState) (sentence : str) : ChunkState :=
  let sentence_length := len sentence in
  if (current_length st + sentence_length >? chunk_size self)
     && truthy (current_chunk st)
  then
    let chunks' :=
      chunks st ++ [emit_unstripped md (chunks st) (current_chunk st)] in
    let current_chunk' :=
      overlap (current_chunk st) ++ py ". " ++ sentence in
    {| chunks := chunks';
       current_chunk := current_chunk';
       current_length := len current_chunk' |}
  else
    let current_chunk' :=
      current_chunk st
        ++ (if truthy (current_chunk st) then py ". " else py "")
        ++ sentence in
    {| chunks := chunks st;
       current_chunk := current_chunk';
       current_length := len current_chunk' |}.

Definition chunk_loop_unstripped (self : DocumentIngestor) (md : pydict)
    (sents : list str) (st : ChunkState) : ChunkState :=
  fold_left (chunk_step_unstripped self md) sents st.

Definition create_chunks_unstripped (self : DocumentIngestor) (text : str)
    (md : pydict) : list Chunk :=
  let st := chunk_loop_unstripped self md (sentences text) chunk_init in
  if truthy (current_chunk st)
  then chunks st ++ [emit_unstripped md (chunks st) (current_chunk st)]
  else chunks st.

(** ** The run when the file system can refuse *)

(** [Path.exists()] and [Path.rglob()] ask the operating system, which
    can refuse with an [OSError] (a path that is too long, a directory
    that cannot be read).  Neither call of [process_directory] is inside
    a [try]. *)
Record FileSystem : Type := mkFileSystem {
  fs_exists : str -> result bool;
  fs_rglob : str -> str -> result (list Path)
}.

(** [for ext in supported_extensions:
       files.extend(directory.rglob(f'*{ext}'))],
    stopping at the first glob that raises. *)
Fixpoint collect_files (FS : FileSystem) (directory_path : str)
    (exts : list str) : result (list Path) :=
  match exts with
  | [] => inr []
  | ext :: exts' =>
      match fs_rglob FS directory_path (py "*" ++ ext) with
      | inl e => inl e
      | inr found =>
          match collect_files FS directory_path exts' with
          | inl e => inl e
          | inr files => inr (found ++ files)
          end
      end
  end.

(** [process_directory] with the calls of the file system as they are
    in the source: what they raise is not caught. *)
Definition process_directory_fs (E : Env) (FS : FileSystem)
    (self : DocumentIngestor) (directory_path : str) : M unit :=
  found <- lift (fs_exists FS directory_path) ;;
  if negb found then
    logger ERROR (DirectoryNotFound directory_path)
  else
    files <- lift (collect_files FS directory_path
                     (elements supported_extensions)) ;;
    logger INFO (FoundFiles (len files)) ;;
    n <- files_loop E self files {| processed := 0; failed := 0 |} ;;
    logger INFO (Completed (processed n) (failed n)).

(** The file system that answers as [path_exists] and [rglob] do. *)
Definition fs_of (E : Env) : FileSystem :=
  {| fs_exists := fun directory_path => inr (path_exists E directory_path);
     fs_rglob := fun directory_path pattern =>
       inr (rglob E directory_path pattern) |}.

(** ** The entry point *)

(** How [main] ends: [sys.exit(status)] after printing a line, or the
    return of [process_directory], or what it raises. *)
Inductive MainResult : Type :=
| Exited (printed : str) (status : Z)
| Returned (r : result unit).

(** [main()], given [sys.argv]. *)
Definition main (E : Env) (FS : FileSystem) (argv : list str)
    : World -> MainResult * World :=
  fun w =>
    if negb (len argv =? 2) then
      (Exited (py "Usage: python ingest.py <directory_path>") 1, w)
    else
      match argv !! 1%nat with
      | Some directory_path =>
          let ingestor := init in
          let '(r, w') :=
            process_directory_fs E FS ingestor directory_path w in
          (Returned r, w')
      | None =>
          (Returned (inl (Exn (py "IndexError")
                           (py "list index out of range"))), w)
      end.

(** ** Naming the parts of [process_file] *)

(** The metadata built for a file and its extracted text. *)
Definition file_metadata (file_path : Path) (text : str) : pydict :=
  <[py "file_size" := VInt (len text)]>
    (<[py "directory" := VStr (path_parent file_path)]>
       (<[py "filename" := VStr (path_name file_path)]>
          (<[py "source" := VStr (path_str file_path)]> ∅))).

(** The body of the loop over the batches. *)
Definition batch_body (E : Env) (self : DocumentIngestor)
    (chunks : list Chunk) (i : Z) : M unit :=
  let batch := slice chunks i (i + batch_size self) in
  let texts := List.map content batch in
  embeddings <- generate_embeddings E texts ;;
  store_chunks E batch embeddings ;;
  time_sleep 100.

(** The loop over the batches, with the [range] it runs over. *)
Definition run_batches (E : Env) (self : DocumentIngestor)
    (chunks : list Chunk) : M unit :=
  starts <- lift (py_range 0 (len chunks) (batch_size self)) ;;
  for_each starts (batch_body E self chunks).

(** The text [extract_text] returns for a file: the extractors read the
    file only, so it is the same in every world. *)
Definition extracted_text (E : Env) (file_path : Path) : str :=
  match fst (extract_text E file_path world0) with
  | inr text => text
  | inl _ => []
  end.

(** The chunks of a file. *)
Definition file_chunks (E : Env) (self : DocumentIngestor)
    (file_path : Path) : list Chunk :=
  create_chunks self (extracted_text E file_path)
    (file_metadata file_path (extracted_text E file_path)).

(** The batches of a list of chunks, one per start index. *)
Definition batches_at (self : DocumentIngestor) (chunks : list Chunk)
    (starts : list Z) : list (list Chunk) :=
  List.map (fun i => slice chunks i (i + batch_size self)) starts.

(** ** Reading a trace *)

Definition is_log (ev : Event) : bool :=
  match ev with
  | Log _ _ => true
  | EmbeddingRequest _ _ | StoreInsert _ _ | Sleep _ => false
  end.

(** The inputs of the embedding requests, in order. *)
Definition embedding_inputs (tr : list Event) : list (list str) :=
  flat_map (fun ev => match ev with
                      | EmbeddingRequest _ input => [input]
                      | _ => []
                      end) tr.

(** The rows of the store inserts, in order. *)
Definition inserted_rows (tr : list Event) : list (list Row) :=
  flat_map (fun ev => match ev with
                      | StoreInsert _ rows => [rows]
                      | _ => []
                      end) tr.

(** The number of rows sent to the store in a trace. *)
Definition rows_sent (tr : list Event) : nat :=
  length (concat (inserted_rows tr)).

(** The world in which [process_file], started in [w], is after the
    events [pre]: every row sent to the store took one reading of the
    clock. *)
Definition world_after (w : World) (pre : list Event) : World :=
  {| trace := trace w ++ pre; clock := clock w + rows_sent pre |}.

(** The extensions [extract_text] has a branch for. *)
Definition handled (ext : str) : bool :=
  str_eqb ext (py ".pdf") || str_eqb ext (py ".docx")
  || str_in ext [py ".png"; py ".jpg"; py ".jpeg"; py ".tiff"]
  || str_in ext [py ".txt"; py ".md"].

(** The batches of a file; none when the [range] raises. *)
Definition file_batches (E : Env) (self : DocumentIngestor)
    (file_path : Path) : list (list Chunk) :=
  match py_range 0 (len (file_chunks E self file_path)) (batch_size self) with
  | inr starts => batches_at self (file_chunks E self file_path) starts
  | inl _ => []
  end.

(** [rows] are the rows [store_chunks] builds from [batch] and the
    vectors of an answer of the embedding service to its texts. *)
Definition stored_from (E : Env) (rows : list Row) (batch : list Chunk)
    : Prop :=
  exists (t : nat) (w : World) (data : list Item),
    embedding_service E w (py "text-embedding-3-small")
      (List.map content batch) = inr data
    /\ rows = rows_from E t (combine batch (List.map item_embedding data)).

(** The embedding service answers with one item per text. *)
Definition one_item_per_text (E : Env) : Prop :=
  forall w model input data,
    embedding_service E w model input = inr data ->
    length data = length input.

(** ** More samples *)

(** The chunk [text_short] gives with [md_indexed]. *)
Definition chunk_short_indexed : Chunk :=
  {| content := py "Hello world. This is  a test. Bye";
     metadata := <[k_chunk_index := VInt 0]> md_indexed |}.

(** Two sentence units of 1001 characters each. *)
Definition text_two_huge : str :=
  rep 1001 (py "a") ++ py "." ++ rep 1001 (py "b").

(** Whitespace only; periods and whitespace only. *)
Definition text_spaces : str := py "   ".
Definition text_dots : str := py " . . ".

(** The sample environment with PDFs that hold periods and whitespace
    only. *)
Definition env_dots : Env :=
  {| str_lower := ascii_lower;
     pdf_extract_text := fun _ => inr (Some text_dots);
     mammoth_extract_raw_text := fun _ => inr [];
     image_to_string := fun _ _ => inr [];
     read_text := fun _ => inr [];
     embedding_service := embedding_service sample_env;
     store_service := store_service sample_env;
     strftime := strftime sample_env;
     path_exists := fun _ => true;
     rglob := rglob sample_env |}.

Definition service_unavailable : exn :=
  Exn (py "ServiceUnavailableError") (py "The server is overloaded").

(** The sample environment with the embedding service down. *)
Definition env_down : Env :=
  {| str_lower := ascii_lower;
     pdf_extract_text := pdf_extract_text sample_env;
     mammoth_extract_raw_text := fun _ => inr [];
     image_to_string := fun _ _ => inr [];
     read_text := fun _ => inr [];
     embedding_service := fun _ _ _ => inl service_unavailable;
     store_service := store_service sample_env;
     strftime := strftime sample_env;
     path_exists := fun _ => true;
     rglob := rglob sample_env |}.

(** The sample environment without any directory. *)
Definition env_nodir : Env :=
  {| str_lower := ascii_lower;
     pdf_extract_text := pdf_extract_text sample_env;
     mammoth_extract_raw_text := fun _ => inr [];
     image_to_string := fun _ _ => inr [];
     read_text := fun _ => inr [];
     embedding_service := embedding_service sample_env;
     store_service := store_service sample_env;
     strftime := strftime sample_env;
     path_exists := fun _ => false;
     rglob := fun _ _ => [] |}.

(** The sample environment with an embedding service that answers every
    input. *)
Definition env_up : Env :=
  {| str_lower := ascii_lower;
     pdf_extract_text := pdf_extract_text sample_env;
     mammoth_extract_raw_text := fun _ => inr [];
     image_to_string := fun _ _ => inr [];
     read_text := fun _ => inr [];
     embedding_service := fun _ _ input => inr (sample_items input);
     store_service := store_service sample_env;
     strftime := strftime sample_env;
     path_exists := fun _ => true;
     rglob := rglob sample_env |}.

(** The sample environment with an embedding service that answers with
    two items at most, whatever the number of texts. *)
Definition env_short : Env :=
  {| str_lower := ascii_lower;
     pdf_extract_text := pdf_extract_text sample_env;
     mammoth_extract_raw_text := fun _ => inr [];
     image_to_string := fun _ _ => inr [];
     read_text := fun _ => inr [];
     embedding_service := fun _ _ input => inr (sample_items (firstn 2 input));
     store_service := store_service sample_env;
     strftime := strftime sample_env;
     path_exists := fun _ => true;
     rglob := rglob sample_env |}.

Definition file_name_too_long : exn :=
  Exn (py "OSError") (py "[Errno 36] File name too long").

Definition permission_denied : exn :=
  Exn (py "OSError") (py "[Errno 13] Permission denied").

(** A file system that refuses every path as too long. *)
Definition fs_too_long : FileSystem :=
  {| fs_exists := fun _ => inl file_name_too_long;
     fs_rglob := fun _ _ => inl file_name_too_long |}.

(** A file system whose directories exist and cannot be read. *)
Definition fs_unreadable : FileSystem :=
  {| fs_exists := fun _ => inr true;
     fs_rglob := fun _ _ => inl permission_denied |}.
(** ** Facts about the string primitives *)

Section StringFacts.

Lemma len_app {A : Type} (l1 l2 : list A) : len (l1 ++ l2) = len l1 + len l2.
Proof. unfold len. rewrite length_app. lia. Qed.

Lemma len_nonneg {A : Type} (l : list A) : 0 <= len l.
Proof. unfold len. lia. Qed.

Lemma truthy_true {A : Type} (l : list A) : truthy l = true <-> l <> [].
Proof. destruct l; simpl; split; congruence. Qed.

Lemma truthy_false {A : Type} (l : list A) : truthy l = false <-> l = [].
Proof. destruct l; simpl; split; congruence. Qed.

Lemma tight_nonempty s : tight s -> s <> [].
Proof. intros [H _] ->. discriminate. Qed.

Lemma lstrip_cases s : lstrip s = [] \/ starts_nonspace (lstrip s) = true.
Proof.
  induction s as [|c s IH]; simpl; [now left|].
  destruct (isspace c) eqn:E; [exact IH|].
  right. simpl. now rewrite E.
Qed.

Lemma lstrip_id s : starts_nonspace s = true -> lstrip s = s.
Proof.
  destruct s as [|c s]; simpl; [discriminate|].
  now destruct (isspace c).
Qed.

Lemma lstrip_snoc s c :
  isspace c = false -> lstrip (s ++ [c]) = lstrip s ++ [c].
Proof.
  intros Hc. induction s as [|d s IH]; simpl.
  - now rewrite Hc.
  - destruct (isspace d); [exact IH|reflexivity].
Qed.

Lemma strip_id s : tight s -> strip s = s.
Proof.
  intros [H1 H2]. unfold strip, rstrip.
  rewrite (lstrip_id s H1), (lstrip_id _ H2). apply rev_involutive.
Qed.

Lemma strip_cases s : strip s = [] \/ tight (strip s).
Proof.
  unfold strip, rstrip.
  destruct (lstrip_cases s) as [->|Hs]; [now left|].
  right. destruct (lstrip s) as [|c l]; [discriminate|].
  simpl in Hs. apply negb_true_iff in Hs.
  simpl rev. rewrite (lstrip_snoc _ _ Hs), rev_app_distr. simpl.
  split.
  - simpl. now rewrite Hs.
  - simpl rev. rewrite rev_involutive.
    destruct (lstrip_cases (rev l)) as [E|H].
    + rewrite E. simpl. now rewrite Hs.
    + destruct (lstrip (rev l)); [discriminate|exact H].
Qed.

Lemma strip_nil : strip [] = [].
Proof. reflexivity. Qed.

Lemma strip_space_cons c s : isspace c = true -> strip (c :: s) = strip s.
Proof. intros H. unfold strip. simpl. now rewrite H. Qed.

Lemma lstrip_Forall (P : char -> Prop) s : Forall P s -> Forall P (lstrip s).
Proof.
  induction 1 as [|c s Hc Hs IH]; simpl; [constructor|].
  destruct (isspace c); [exact IH|now constructor].
Qed.

Lemma strip_Forall (P : char -> Prop) s : Forall P s -> Forall P (strip s).
Proof.
  intros H. unfold strip, rstrip.
  apply Forall_rev, lstrip_Forall, Forall_rev, lstrip_Forall, H.
Qed.

Lemma tight_app a x s :
  starts_nonspace a = true -> tight s -> tight (a ++ x ++ s).
Proof.
  intros Ha [_ Hs]. split.
  - destruct a; [discriminate|exact Ha].
  - rewrite !rev_app_distr.
    destruct (rev s); [discriminate|exact Hs].
Qed.

(** *** Splitting *)

Lemma split_when_nonempty p s : split_when p s <> [].
Proof.
  destruct s as [|c s]; simpl; [discriminate|].
  destruct (p c); [discriminate|].
  destruct (split_when p s); discriminate.
Qed.

Lemma split_when_free p s :
  Forall (Forall (fun c => p c = false)) (split_when p s).
Proof.
  induction s as [|c s IH]; simpl.
  - repeat constructor.
  - destruct (p c) eqn:E.
    + constructor; [constructor|exact IH].
    + destruct (split_when p s) as [|w ws].
      * repeat constructor. exact E.
      * apply Forall_cons in IH as [Hw Hws].
        constructor; [constructor; assumption|exact Hws].
Qed.

Lemma split_when_id p w :
  Forall (fun c => p c = false) w -> split_when p w = [w].
Proof.
  induction 1 as [|c w Hc Hw IH]; simpl; [reflexivity|].
  now rewrite Hc, IH.
Qed.

Lemma split_when_app p w d x :
  Forall (fun c => p c = false) w -> p d = true ->
  split_when p (w ++ d :: x) = w :: split_when p x.
Proof.
  intros Hw Hd. induction Hw as [|c w Hc Hw IH]; simpl.
  - now rewrite Hd.
  - now rewrite Hc, IH.
Qed.

Lemma split_ws_words s :
  Forall (fun w => w <> [] /\ Forall (fun c => isspace c = false) w)
    (split_ws s).
Proof.
  unfold split_ws.
  pose proof (split_when_free isspace s) as H.
  induction H as [|w ws Hw Hws IH]; simpl; [constructor|].
  destruct (truthy w) eqn:E; [|exact IH].
  constructor; [|exact IH].
  split; [now apply truthy_true|exact Hw].
Qed.

Lemma split_ws_nonempty s : starts_nonspace s = true -> split_ws s <> [].
Proof.
  destruct s as [|c s]; simpl; [discriminate|].
  intros H. apply negb_true_iff in H.
  unfold split_ws. simpl. rewrite H.
  destruct (split_when isspace s); simpl; discriminate.
Qed.

(** *** Joining and slicing *)

Lemma join_cons2 sep w v ws :
  join sep (w :: v :: ws) = w ++ sep ++ join sep (v :: ws).
Proof. reflexivity. Qed.

Lemma join_snoc sep g x :
  g <> [] -> join sep (g ++ [x]) = join sep g ++ sep ++ x.
Proof.
  induction g as [|w g IH]; [congruence|intros _].
  destruct g as [|v g]; [reflexivity|].
  change (join sep ((w :: v :: g) ++ [x]))
    with (w ++ sep ++ join sep ((v :: g) ++ [x])).
  rewrite IH by discriminate.
  rewrite join_cons2, <- !app_assoc. reflexivity.
Qed.

Lemma join_starts sep w ws :
  starts_nonspace w = true -> starts_nonspace (join sep (w :: ws)) = true.
Proof.
  intros H. destruct w as [|c w]; [discriminate|].
  destruct ws; exact H.
Qed.

Lemma slice_from_Forall {A : Type} (P : A -> Prop) i (l : list A) :
  Forall P l -> Forall P (slice_from l i).
Proof. intros H. unfold slice_from. now apply Forall_drop. Qed.

Lemma slice_from_neg_nonempty {A : Type} i (l : list A) :
  i < 0 -> l <> [] -> slice_from l i <> [].
Proof.
  intros Hi Hl E. unfold slice_from, slice_index in E.
  apply (f_equal (@length A)) in E. rewrite length_skipn in E.
  apply Z.ltb_lt in Hi. rewrite Hi in E.
  destruct l; [congruence|]. unfold len in E. simpl length in E. lia.
Qed.

(** [l[-n:]] holds the last [n] items, or all of them when there are
    fewer. *)
Lemma slice_from_neg_length {A : Type} (n : nat) (l : list A) :
  (0 < n)%nat ->
  length (slice_from l (- Z.of_nat n)) = Nat.min n (length l).
Proof.
  intros Hn. unfold slice_from, slice_index, len.
  rewrite length_skipn.
  destruct (- Z.of_nat n <? 0) eqn:E; [lia|]. apply Z.ltb_ge in E. lia.
Qed.

Lemma slice_from_suffix {A : Type} i (l : list A) :
  exists front, l = front ++ slice_from l i.
Proof.
  exists (firstn (slice_index l i) l). unfold slice_from.
  symmetry. apply firstn_skipn.
Qed.

(** The overlap seed of a buffer that starts with a word starts with a
    word character. *)
Lemma overlap_starts s :
  starts_nonspace s = true -> starts_nonspace (overlap s) = true.
Proof.
  intros Hs. unfold overlap. cbv zeta.
  assert (Hall : Forall
            (fun w => w <> [] /\ Forall (fun c => isspace c = false) w)
            (slice_from (split_ws s) (-20)))
    by apply slice_from_Forall, split_ws_words.
  assert (Hne : slice_from (split_ws s) (-20) <> [])
    by (apply slice_from_neg_nonempty; [lia|now apply split_ws_nonempty]).
  destruct (slice_from (split_ws s) (-20)) as [|w ws]; [congruence|].
  apply Forall_cons in Hall as [[Hw Hfree] _].
  apply join_starts. destruct w as [|c w]; [congruence|].
  apply Forall_cons in Hfree as [Hc _]. simpl. now rewrite Hc.
Qed.

End StringFacts.

(** ** Facts about the chunker *)

Section ChunkerFacts.

Variable self : DocumentIngestor.
Variable md : pydict.

Lemma sentences_units text : Forall sentence_unit (sentences text).
Proof.
  unfold sentences, split.
  pose proof (split_when_free (N.eqb DOT) text) as H.
  induction H as [|w ws Hw Hws IH]; simpl; [constructor|].
  destruct (truthy (strip w)) eqn:E; [|exact IH].
  simpl. constructor; [|exact IH].
  split.
  - destruct (strip_cases w) as [H0|H0]; [|exact H0].
    rewrite H0 in E. discriminate.
  - now apply strip_Forall.
Qed.

Lemma last_from_cons {A : Type} (prev : option A) x l :
  last_from prev (x :: l) = last_from (Some x) l.
Proof.
  unfold last_from. destruct l as [|y l]; [reflexivity|].
  rewrite last_cons_cons.
  destruct (last (y :: l)) eqn:E; [reflexivity|].
  apply last_None in E. discriminate.
Qed.

Lemma last_from_None {A : Type} (l : list A) : last_from None l = last l.
Proof. unfold last_from. now destruct (last l). Qed.

Lemma assemble_snoc prev gs g :
  assemble prev (gs ++ [g])
  = assemble prev gs
      ++ [seed (last_from prev (assemble prev gs)) ++ join (py ". ") g].
Proof.
  revert prev. induction gs as [|g0 gs IH]; intros prev; simpl.
  - reflexivity.
  - now rewrite IH, last_from_cons.
Qed.

Lemma join_nonempty sep g :
  g <> [] -> Forall (fun s => s <> []) g -> join sep g <> [].
Proof.
  destruct g as [|w g]; [congruence|].
  intros _ H. apply Forall_cons in H as [Hw _].
  destruct g; simpl; [exact Hw|].
  destruct w; [congruence|discriminate].
Qed.

Lemma chunk_inv_init : chunk_inv self md [] chunk_init [] [].
Proof.
  constructor; simpl; try reflexivity; try congruence.
  - constructor.
  - constructor.
  - right. lia.
  - constructor.
  - intros i c H. discriminate.
Qed.

(** An empty group means an empty buffer. *)
Lemma chunk_inv_empty sents st gs :
  chunk_inv self md sents st gs [] -> current_chunk st = [] /\ chunks st = [].
Proof.
  intros I. pose proof (inv_first _ _ _ _ _ _ I eq_refl) as ->.
  pose proof (inv_contents _ _ _ _ _ _ I) as Hc. simpl in Hc.
  apply map_eq_nil in Hc.
  pose proof (inv_current _ _ _ _ _ _ I) as Hcur.
  rewrite Hc in Hcur. simpl in Hcur. now split.
Qed.

Lemma chunk_step_inv sents st gs g s :
  chunk_inv self md sents st gs g -> tight s ->
  exists gs' g',
    g' <> [] /\
    chunk_inv self md (sents ++ [s]) (chunk_step self md st s) gs' g'.
Proof.
  intros I Hs. unfold chunk_step. cbv zeta.
  destruct ((current_length st + len s >? chunk_size self)
            && truthy (current_chunk st)) eqn:C.
  - (* the buffer is closed *)
    apply andb_true_iff in C as [_ Ht]. apply truthy_true in Ht.
    assert (Hg : g <> []).
    { intros ->. now destruct (chunk_inv_empty _ _ _ I). }
    pose proof (inv_tight _ _ _ _ _ _ I Hg) as Hcur.
    assert (Hemit : strip (current_chunk st) = current_chunk st)
      by now apply strip_id.
    exists (gs ++ [g]), [s]. split; [discriminate|].
    constructor; cbn [chunks current_chunk current_length].
    + rewrite concat_app. simpl. rewrite app_nil_r.
      now rewrite (inv_cover _ _ _ _ _ _ I).
    + apply Forall_app. split; [apply (inv_groups _ _ _ _ _ _ I)|].
      now constructor.
    + discriminate.
    + rewrite map_app, assemble_snoc. simpl. rewrite Hemit.
      rewrite <- (inv_contents _ _ _ _ _ _ I), last_from_None.
      f_equal. f_equal. exact (inv_current _ _ _ _ _ _ I).
    + rewrite map_app. simpl. rewrite last_snoc, Hemit. simpl.
      now rewrite <- app_assoc.
    + reflexivity.
    + intros _. apply tight_app; [|exact Hs].
      apply overlap_starts, Hcur.
    + rewrite map_app. apply Forall2_app; [apply (inv_sizes _ _ _ _ _ _ I)|].
      constructor; [|constructor]. simpl. rewrite Hemit.
      destruct (inv_size _ _ _ _ _ _ I) as [H|H]; [now left|right].
      destruct g as [|? [|? ?]]; simpl in *; [congruence|reflexivity|lia].
    + right. simpl. lia.
    + rewrite map_app. apply Forall_app.
      split; [apply (inv_tights _ _ _ _ _ _ I)|].
      constructor; [|constructor]. simpl. rewrite Hemit. exact Hcur.
    + intros i c Hi. apply lookup_app_Some in Hi as [Hi|[Hle Hi]].
      * now apply (inv_index _ _ _ _ _ _ I).
      * destruct (i - length (chunks st))%nat as [|k] eqn:Ek;
          [|destruct k; discriminate].
        simpl in Hi. injection Hi as <-. simpl. unfold len.
        do 3 f_equal. lia.
  - (* the unit joins the buffer *)
    exists gs, (g ++ [s]). split; [now destruct g|].
    destruct g as [|s0 g].
    + destruct (chunk_inv_empty _ _ _ I) as [Hcur Hch].
      pose proof (inv_first _ _ _ _ _ _ I eq_refl) as ->.
      rewrite Hcur, Hch. simpl.
      constructor; simpl; try reflexivity; try congruence.
      * pose proof (inv_cover _ _ _ _ _ _ I) as H.
        simpl in H. now rewrite <- H.
      * constructor.
      * constructor.
      * right. lia.
      * constructor.
      * intros i c H. discriminate.
    + pose proof (inv_tight _ _ _ _ _ _ I ltac:(discriminate)) as Hcur.
      pose proof (tight_nonempty _ Hcur) as Hne.
      apply truthy_true in Hne. rewrite Hne in C |- *.
      rewrite andb_true_r in C.
      constructor; cbn [chunks current_chunk current_length].
      * rewrite <- (inv_cover _ _ _ _ _ _ I). now rewrite app_assoc.
      * apply (inv_groups _ _ _ _ _ _ I).
      * discriminate.
      * apply (inv_contents _ _ _ _ _ _ I).
      * rewrite (inv_current _ _ _ _ _ _ I) at 1.
        change (s0 :: g ++ [s]) with ((s0 :: g) ++ [s]).
        rewrite join_snoc by discriminate.
        now rewrite <- !app_assoc.
      * reflexivity.
      * intros _. apply tight_app; [apply Hcur|exact Hs].
      * apply (inv_sizes _ _ _ _ _ _ I).
      * left. rewrite !len_app.
        rewrite (inv_length _ _ _ _ _ _ I) in C.
        change (len (py ". ")) with 2. lia.
      * apply (inv_tights _ _ _ _ _ _ I).
      * apply (inv_index _ _ _ _ _ _ I).
Qed.

Lemma chunk_loop_snoc sents s st :
  chunk_loop self md (sents ++ [s]) st
  = chunk_step self md (chunk_loop self md sents st) s.
Proof. unfold chunk_loop. now rewrite fold_left_app. Qed.

Lemma chunk_loop_inv sents :
  Forall tight sents ->
  exists gs g,
    (g = [] -> sents = []) /\
    chunk_inv self md sents (chunk_loop self md sents chunk_init) gs g.
Proof.
  induction sents as [|s sents IH] using rev_ind; intros H.
  - exists [], []. split; [reflexivity|apply chunk_inv_init].
  - apply Forall_app in H as [H Hs]. apply Forall_cons in Hs as [Hs _].
    destruct (IH H) as (gs & g & _ & I).
    destruct (chunk_step_inv _ _ _ _ s I Hs) as (gs' & g' & Hg' & I').
    exists gs', g'. split; [congruence|].
    now rewrite chunk_loop_snoc.
Qed.

(** The chunks [create_chunks] returns, described by groups of
    consecutive sentence units. *)
Lemma create_chunks_groups text :
  exists gs,
    concat gs = sentences text /\
    Forall (fun g => g <> []) gs /\
    List.map content (create_chunks self text md) = assemble None gs /\
    Forall2 (size_ok self) (List.map content (create_chunks self text md)) gs /\
    Forall tight (List.map content (create_chunks self text md)) /\
    (forall (i : nat) (c : Chunk),
        create_chunks self text md !! i = Some c ->
        metadata c = <[k_chunk_index := VInt (Z.of_nat i)]> md).
Proof.
  assert (Hu : Forall tight (sentences text)).
  { eapply Forall_impl; [apply sentences_units|]. now intros s [H _]. }
  destruct (chunk_loop_inv _ Hu) as (gs & g & Hg & I).
  unfold create_chunks. cbv zeta.
  set (st := chunk_loop self md (sentences text) chunk_init) in *.
  destruct g as [|s0 g].
  - destruct (chunk_inv_empty _ _ _ I) as [Hcur Hch].
    pose proof (inv_first _ _ _ _ _ _ I eq_refl) as ->.
    rewrite Hcur, Hch. simpl. exists [].
    rewrite (Hg eq_refl). repeat split; try constructor.
    intros i c H. discriminate.
  - pose proof (inv_tight _ _ _ _ _ _ I ltac:(discriminate)) as Hcur.
    rewrite (strip_id _ Hcur).
    pose proof (tight_nonempty _ Hcur) as Hne.
    apply truthy_true in Hne. rewrite Hne.
    assert (Hemit : strip (current_chunk st) = current_chunk st)
      by now apply strip_id.
    exists (gs ++ [s0 :: g]). rewrite !map_app. simpl. rewrite Hemit.
    repeat split.
    + rewrite concat_app. simpl. rewrite app_nil_r.
      apply (inv_cover _ _ _ _ _ _ I).
    + apply Forall_app. split; [apply (inv_groups _ _ _ _ _ _ I)|].
      now constructor.
    + rewrite assemble_snoc.
      rewrite <- (inv_contents _ _ _ _ _ _ I), last_from_None.
      f_equal. f_equal. exact (inv_current _ _ _ _ _ _ I).
    + apply Forall2_app; [apply (inv_sizes _ _ _ _ _ _ I)|].
      constructor; [|constructor].
      destruct (inv_size _ _ _ _ _ _ I) as [H|H]; [now left|right].
      simpl in *. lia.
    + apply Forall_app. split; [apply (inv_tights _ _ _ _ _ _ I)|].
      now constructor.
    + intros i c Hi. apply lookup_app_Some in Hi as [Hi|[Hle Hi]].
      * now apply (inv_index _ _ _ _ _ _ I).
      * destruct (i - length (chunks st))%nat as [|k] eqn:Ek;
          [|destruct k; discriminate].
        simpl in Hi. injection Hi as <-. simpl. unfold len.
        do 3 f_equal. lia.
Qed.

(** Consecutive chunk texts: the later one is the seed taken from the
    earlier one, followed by its own group. *)
Lemma assemble_lookup_S gs : forall prev (i : nat) p c,
  assemble prev gs !! i = Some p ->
  assemble prev gs !! S i = Some c ->
  exists g, gs !! S i = Some g /\ c = seed (Some p) ++ join (py ". ") g.
Proof.
  induction gs as [|g0 gs IH]; intros prev i p c Hp Hc; [discriminate|].
  simpl in Hp, Hc. destruct i as [|i].
  - injection Hp as <-. destruct gs as [|g1 gs]; [discriminate|].
    simpl in Hc. injection Hc as <-. exists g1. now split.
  - simpl in Hp. destruct (IH _ _ _ _ Hp Hc) as (g & Hg & E).
    exists g. now split.
Qed.

Lemma assemble_lookup_0 prev gs c :
  assemble prev gs !! 0%nat = Some c ->
  exists g, gs !! 0%nat = Some g /\ c = seed prev ++ join (py ". ") g.
Proof.
  destruct gs as [|g gs]; [discriminate|]. simpl.
  intros H. injection H as <-. exists g. now split.
Qed.

Lemma portions_assemble gs : forall prev,
  portions_from prev (assemble prev gs) = List.map (join (py ". ")) gs.
Proof.
  induction gs as [|g gs IH]; intros prev; simpl; [reflexivity|].
  rewrite IH. f_equal.
  rewrite skipn_app, Nat.sub_diag, skipn_all. reflexivity.
Qed.

Lemma reseed_assemble gs : forall prev,
  reseed (seeds_from prev (assemble prev gs))
    (portions_from prev (assemble prev gs))
  = assemble prev gs.
Proof.
  unfold reseed.
  induction gs as [|g gs IH]; intros prev; simpl; [reflexivity|].
  rewrite IH. f_equal.
  rewrite skipn_app, Nat.sub_diag, skipn_all. reflexivity.
Qed.

(** *** Splitting a rejoined group gives the group back *)

Lemma sentences_app_dot w x :
  Forall (fun c => N.eqb DOT c = false) w ->
  sentences (w ++ DOT :: x)
  = (if truthy (strip w) then [strip w] else []) ++ sentences x.
Proof.
  intros Hw. unfold sentences, split.
  rewrite (split_when_app _ _ _ _ Hw) by reflexivity. simpl.
  now destruct (truthy (strip w)).
Qed.

Lemma sentences_one w : sentence_unit w -> sentences w = [w].
Proof.
  intros [Ht Hw]. unfold sentences, split.
  rewrite (split_when_id _ _ Hw). simpl.
  rewrite (strip_id _ Ht).
  pose proof (tight_nonempty _ Ht) as Hne. apply truthy_true in Hne.
  rewrite Hne. simpl. now rewrite (strip_id _ Ht).
Qed.

Lemma sentences_space x : sentences (SPACE :: x) = sentences x.
Proof.
  unfold sentences, split.
  change (split_when (N.eqb DOT) (SPACE :: x))
    with (match split_when (N.eqb DOT) x with
          | [] => [[SPACE]]
          | w :: ws => (SPACE :: w) :: ws
          end).
  pose proof (split_when_nonempty (N.eqb DOT) x) as Hne.
  destruct (split_when (N.eqb DOT) x) as [|w ws]; [congruence|].
  cbn [List.filter List.map].
  rewrite (strip_space_cons SPACE w eq_refl).
  now destruct (truthy (strip w)).
Qed.

Lemma sentences_join g :
  Forall sentence_unit g -> sentences (join (py ". ") g) = g.
Proof.
  induction 1 as [|w g Hw Hg IH]; [reflexivity|].
  destruct g as [|v g]; [now apply sentences_one|].
  rewrite join_cons2. change (py ". ") with [DOT; SPACE].
  change (w ++ [DOT; SPACE] ++ join [DOT; SPACE] (v :: g))
    with (w ++ DOT :: SPACE :: join [DOT; SPACE] (v :: g)).
  destruct Hw as [Ht Hfree].
  rewrite (sentences_app_dot _ _ Hfree), sentences_space.
  rewrite (strip_id _ Ht).
  pose proof (tight_nonempty _ Ht) as Hne. apply truthy_true in Hne.
  rewrite Hne. simpl. f_equal. exact IH.
Qed.

Lemma concat_sentences_join gs :
  Forall sentence_unit (concat gs) ->
  concat (List.map sentences (List.map (join (py ". ")) gs)) = concat gs.
Proof.
  induction gs as [|g gs IH]; simpl; [reflexivity|].
  intros H. apply Forall_app in H as [Hg Hgs].
  now rewrite (sentences_join _ Hg), IH.
Qed.

(** *** A buffer that never overflows *)

Lemma len_join_snoc sep g x :
  len (join sep g) + len x <= len (join sep (g ++ [x])).
Proof.
  destruct g as [|w g].
  - simpl. unfold len. simpl. lia.
  - rewrite join_snoc by discriminate. rewrite !len_app.
    pose proof (len_nonneg sep). lia.
Qed.

Lemma len_join_app sep g h :
  len (join sep g) <= len (join sep (g ++ h)).
Proof.
  revert g. induction h as [|x h IH]; intros g.
  - rewrite app_nil_r. lia.
  - change (g ++ x :: h) with (g ++ [x] ++ h). rewrite app_assoc.
    eapply Z.le_trans; [|apply IH].
    eapply Z.le_trans; [|apply len_join_snoc].
    pose proof (len_nonneg x). lia.
Qed.

Lemma chunk_loop_no_split rest : forall done st,
  chunks st = [] ->
  current_chunk st = join (py ". ") done ->
  current_length st = len (current_chunk st) ->
  Forall (fun s => s <> []) (done ++ rest) ->
  len (join (py ". ") (done ++ rest)) <= chunk_size self ->
  chunk_loop self md rest st
  = {| chunks := [];
       current_chunk := join (py ". ") (done ++ rest);
       current_length := len (join (py ". ") (done ++ rest)) |}.
Proof.
  induction rest as [|s rest IH]; intros done st Hch Hcur Hlen Hne Hsize.
  - rewrite app_nil_r. simpl. destruct st as [c cur l]. simpl in *.
    now subst.
  - change (done ++ s :: rest) with (done ++ [s] ++ rest) in *.
    rewrite app_assoc in *.
    pose proof (len_join_app (py ". ") (done ++ [s]) rest) as H1.
    pose proof (len_join_snoc (py ". ") done s) as H2.
    assert (C : (current_length st + len s >? chunk_size self) = false)
      by (rewrite Hlen, Hcur, Z.gtb_ltb; apply Z.ltb_ge;
          unfold str in *; lia).
    assert (Hstep : chunk_step self md st s
                    = {| chunks := [];
                         current_chunk := join (py ". ") (done ++ [s]);
                         current_length :=
                           len (join (py ". ") (done ++ [s])) |}).
    { unfold chunk_step. cbv zeta. rewrite C. cbn [andb].
      assert (E : current_chunk st
                    ++ (if truthy (current_chunk st)
                        then py ". " else py "") ++ s
                  = join (py ". ") (done ++ [s])).
      { rewrite Hcur. destruct done as [|w done]; [reflexivity|].
        assert (Hj : join (py ". ") (w :: done) <> []).
        { apply join_nonempty; [discriminate|].
          apply Forall_app in Hne as [Hne _].
          now apply Forall_app in Hne as [Hne _]. }
        apply truthy_true in Hj. rewrite Hj.
        now rewrite join_snoc by discriminate. }
      now rewrite E, Hch. }
    unfold chunk_loop. simpl. fold (chunk_loop self md rest).
    rewrite Hstep. now apply IH.
Qed.

End ChunkerFacts.

(** ** The chunker: size, coverage, overlap, indexing *)

Section ChunkerClaims.

Variable self : DocumentIngestor.
Variable md : pydict.

Lemma lookup_map {A B : Type} (f : A -> B) (l : list A) (i : nat) :
  List.map f l !! i = option_map f (l !! i).
Proof.
  revert i. induction l as [|x l IH]; intros [|i]; simpl; auto.
Qed.

Lemma lookup_content (cs : list Chunk) (i : nat) c :
  cs !! i = Some c -> List.map content cs !! i = Some (content c).
Proof. intros H. now rewrite lookup_map, H. Qed.

(** C1 (as amended): every chunk [create_chunks] emits is at most
    [chunk_size + 2] characters long, unless it holds a single sentence
    unit: alone, or after the overlap seed taken from the chunk before
    it and the delimiter. *)
Theorem create_chunks_size text c :
  In c (create_chunks self text md) ->
  len (content c) <= chunk_size self + 2
  \/ In (content c) (sentences text)
  \/ exists p s,
       In p (create_chunks self text md) /\ In s (sentences text) /\
       content c = overlap (content p) ++ py ". " ++ s.
Proof.
  intros Hin.
  destruct (create_chunks_groups self md text)
    as (gs & Hcat & _ & Hcont & Hsz & _ & _).
  apply list_elem_of_In, list_elem_of_lookup in Hin as [i Hi].
  pose proof (lookup_content _ _ _ Hi) as Hci.
  destruct (Forall2_lookup_l _ _ _ _ _ Hsz Hci) as (g & Hg & [Hle|Hone]);
    [now left|right].
  destruct g as [|s [|? ?]]; try discriminate.
  assert (Hs : In s (sentences text)).
  { rewrite <- Hcat. apply in_concat. exists [s].
    split; [|now left].
    apply list_elem_of_In, list_elem_of_lookup. now exists i. }
  rewrite Hcont in Hci. destruct i as [|i].
  - left. apply assemble_lookup_0 in Hci as (g' & Hg' & E).
    rewrite Hg in Hg'. injection Hg' as <-. simpl in E. now rewrite E.
  - right.
    destruct (lookup_lt_is_Some_2 (create_chunks self text md) i)
      as [p Hp].
    { apply lookup_lt_Some in Hi. lia. }
    pose proof (lookup_content _ _ _ Hp) as Hcp. rewrite Hcont in Hcp.
    destruct (assemble_lookup_S _ _ _ _ _ Hcp Hci) as (g' & Hg' & E).
    rewrite Hg in Hg'. injection Hg' as <-.
    exists p, s. split; [|split; [exact Hs|]].
    + apply list_elem_of_In, list_elem_of_lookup. now exists i.
    + rewrite E. simpl. now rewrite <- app_assoc.
Qed.

(** C2: every emitted chunk is its overlap seed followed by its
    non-overlap portion, and splitting the non-overlap portions back
    into sentence units and concatenating the results, in emission
    order, gives the sentence units of the text. *)
Theorem create_chunks_reconstruct text :
  let cs := List.map content (create_chunks self text md) in
  reseed (overlap_seeds cs) (non_overlap_portions cs) = cs
  /\ concat (List.map sentences (non_overlap_portions cs)) = sentences text.
Proof.
  cbv zeta.
  destruct (create_chunks_groups self md text)
    as (gs & Hcat & _ & Hcont & _).
  rewrite Hcont. unfold non_overlap_portions, overlap_seeds.
  split; [apply reseed_assemble|].
  rewrite portions_assemble, concat_sentences_join; [exact Hcat|].
  rewrite Hcat. apply sentences_units.
Qed.

(** C3: a chunk that is not the first begins with the last words of the
    chunk before it, at most 20 of them, joined by spaces. *)
Theorem create_chunks_overlap text (i : nat) p c :
  create_chunks self text md !! i = Some p ->
  create_chunks self text md !! S i = Some c ->
  let words := split_ws (content p) in
  let overlap_words := slice_from words (-20) in
  length overlap_words = Nat.min 20 (length words)
  /\ (exists front, words = front ++ overlap_words)
  /\ (exists rest, content c = join (py " ") overlap_words ++ rest).
Proof.
  intros Hp Hc words overlap_words.
  split; [apply (slice_from_neg_length 20); lia|].
  split; [apply slice_from_suffix|].
  destruct (create_chunks_groups self md text)
    as (gs & _ & _ & Hcont & _).
  pose proof (lookup_content _ _ _ Hp) as Hcp.
  pose proof (lookup_content _ _ _ Hc) as Hcc.
  rewrite Hcont in Hcp, Hcc.
  destruct (assemble_lookup_S _ _ _ _ _ Hcp Hcc) as (g & _ & E).
  exists (py ". " ++ join (py ". ") g).
  rewrite E. simpl. now rewrite <- app_assoc.
Qed.

(** C7 (as amended): a text with at least one sentence unit, whose
    units rejoined with the delimiter take at most [chunk_size]
    characters, gives exactly one chunk: the rejoined units, with
    [chunk_index] 0. *)
Theorem create_chunks_single text :
  sentences text <> [] ->
  len (join (py ". ") (sentences text)) <= chunk_size self ->
  exists c,
    create_chunks self text md = [c]
    /\ content c = join (py ". ") (sentences text)
    /\ metadata c !! k_chunk_index = Some (VInt 0).
Proof.
  intros Hne Hsize.
  pose proof (sentences_units text) as Hu.
  assert (Ht : Forall tight (sentences text)).
  { eapply Forall_impl; [exact Hu|]. now intros s [H _]. }
  assert (Hloop : chunk_loop self md (sentences text) chunk_init
                  = {| chunks := [];
                       current_chunk := join (py ". ") (sentences text);
                       current_length :=
                         len (join (py ". ") (sentences text)) |}).
  { apply (chunk_loop_no_split self md (sentences text) []);
      try reflexivity; [|exact Hsize].
    eapply Forall_impl; [exact Ht|]. intros s. apply tight_nonempty. }
  destruct (chunk_loop_inv self md _ Ht) as (gs & g & Hg & I).
  assert (Hcur : tight (join (py ". ") (sentences text))).
  { pose proof (inv_tight _ _ _ _ _ _ I) as H. rewrite Hloop in H.
    apply H. intros ->. now apply Hne, Hg. }
  unfold create_chunks. cbv zeta. rewrite Hloop.
  cbn [chunks current_chunk]. rewrite (strip_id _ Hcur).
  pose proof (tight_nonempty _ Hcur) as Hne'. apply truthy_true in Hne'.
  rewrite Hne'. eexists. split; [reflexivity|]. simpl.
  split; [now apply strip_id|]. apply lookup_insert_eq.
Qed.

(** C8: no emitted chunk is empty once trimmed, and the empty text
    gives no chunk. *)
Theorem create_chunks_nonempty text :
  Forall (fun c => strip (content c) <> []) (create_chunks self text md)
  /\ create_chunks self (py "") md = [].
Proof.
  split; [|reflexivity].
  destruct (create_chunks_groups self md text)
    as (gs & _ & _ & _ & _ & Ht & _).
  apply (proj1 (List.Forall_map content tight _)) in Ht.
  eapply Forall_impl; [exact Ht|]. intros c Hc. simpl in Hc.
  rewrite (strip_id _ Hc). now apply tight_nonempty.
Qed.

End ChunkerClaims.

(** *** The chunker on the sample inputs *)

Example create_chunks_short :
  create_chunks init text_short ∅ = [chunk_short].
Proof. vm_compute. reflexivity. Qed.

Example create_chunks_two_long :
  create_chunks init text_two_long ∅ = [chunk_long_0; chunk_long_1].
Proof. vm_compute. reflexivity. Qed.

(** Two units that pass the size check together give one chunk of their
    lengths plus the delimiter: 1002 characters. *)
Example create_chunks_two_fit :
  List.map (fun c => len (content c)) (create_chunks init text_two_fit ∅)
  = [1002]
  /\ List.map len (sentences text_two_fit) = [600; 400].
Proof. split; vm_compute; reflexivity. Qed.

(** The blank text is shorter than [chunk_size] and gives no chunk. *)
Example create_chunks_blank :
  len (py "") < chunk_size init /\ create_chunks init (py "") ∅ = [].
Proof. split; reflexivity. Qed.

(** C1, counterexample: the second chunk of [text_two_long] has 1802
    characters, more than [chunk_size], and is not a sentence unit. *)
Lemma create_chunks_size_counterexample :
  exists c,
    In c (create_chunks init text_two_long ∅)
    /\ chunk_size init < len (content c)
    /\ ~ In (content c) (sentences text_two_long).
Proof.
  exists chunk_long_1. split; [|split].
  - rewrite create_chunks_two_long. right. now left.
  - vm_compute. reflexivity.
  - assert (Hs : Forall (fun s => length s = 900%nat)
                   (sentences text_two_long))
      by (vm_compute; repeat constructor).
    intros Hin. rewrite Forall_forall in Hs.
    apply list_elem_of_In, Hs in Hin. vm_compute in Hin. discriminate.
Qed.

(** C1 on [text_short]: its one chunk is within the size. *)
Lemma create_chunks_size_witness :
  In chunk_short (create_chunks init text_short ∅)
  /\ (len (content chunk_short) <= chunk_size init + 2
      \/ In (content chunk_short) (sentences text_short)
      \/ exists p s,
           In p (create_chunks init text_short ∅)
           /\ In s (sentences text_short)
           /\ content chunk_short = overlap (content p) ++ py ". " ++ s).
Proof.
  assert (H : In chunk_short (create_chunks init text_short ∅))
    by (vm_compute; left; reflexivity).
  split; [exact H|].
  exact (create_chunks_size init ∅ text_short chunk_short H).
Defined.

(** C3 on [text_two_long]: the second chunk starts with the one word
    of the first. *)
Lemma create_chunks_overlap_witness :
  create_chunks init text_two_long ∅ !! 0%nat = Some chunk_long_0
  /\ create_chunks init text_two_long ∅ !! 1%nat = Some chunk_long_1
  /\ length (slice_from (split_ws (content chunk_long_0)) (-20))
     = Nat.min 20 (length (split_ws (content chunk_long_0)))
  /\ (exists front,
         split_ws (content chunk_long_0)
         = front ++ slice_from (split_ws (content chunk_long_0)) (-20))
  /\ (exists rest,
         content chunk_long_1
         = join (py " ") (slice_from (split_ws (content chunk_long_0)) (-20))
             ++ rest).
Proof.
  assert (H0 : create_chunks init text_two_long ∅ !! 0%nat
               = Some chunk_long_0) by (vm_compute; reflexivity).
  assert (H1 : create_chunks init text_two_long ∅ !! 1%nat
               = Some chunk_long_1) by (vm_compute; reflexivity).
  split; [exact H0|]. split; [exact H1|].
  exact (create_chunks_overlap init ∅ text_two_long 0 _ _ H0 H1).
Defined.

(** C7, counterexample: [text_dense] has 800 characters, fewer than
    [chunk_size], and gives two chunks. *)
Lemma create_chunks_single_counterexample :
  len text_dense < chunk_size init
  /\ length (create_chunks init text_dense ∅) = 2%nat.
Proof. split; vm_compute; reflexivity. Qed.

(** The chunks of [text_dense]: the first is closed once the rejoined
    buffer has reached 1000 characters. *)
Example create_chunks_dense :
  List.map (fun c => len (content c)) (create_chunks init text_dense ∅)
  = [1000; 256].
Proof. vm_compute. reflexivity. Qed.

(** C7 on [text_short]: three units, rejoined in one chunk. *)
Lemma create_chunks_single_witness :
  sentences text_short <> []
  /\ len (join (py ". ") (sentences text_short)) <= chunk_size init
  /\ exists c,
       create_chunks init text_short ∅ = [c]
       /\ content c = join (py ". ") (sentences text_short)
       /\ metadata c !! k_chunk_index = Some (VInt 0).
Proof.
  assert (H1 : sentences text_short <> [])
    by (vm_compute; discriminate).
  assert (H2 : len (join (py ". ") (sentences text_short))
               <= chunk_size init)
    by (vm_compute; discriminate).
  split; [exact H1|]. split; [exact H2|].
  exact (create_chunks_single init ∅ text_short H1 H2).
Defined.

(** ** Facts about the pipeline *)

Section PipelineFacts.

Variable E : Env.

Lemma extends_refl w : extends w w.
Proof. exists []. now rewrite app_nil_r. Qed.

Lemma extends_trans w1 w2 w3 : extends w1 w2 -> extends w2 w3 -> extends w1 w3.
Proof.
  intros [e1 H1] [e2 H2]. exists (e1 ++ e2).
  now rewrite H2, H1, app_assoc.
Qed.

Lemma extends_after evs w : extends w (after evs w).
Proof. now exists evs. Qed.

Lemma extends_In ev w w' : extends w w' -> In ev (trace w) -> In ev (trace w').
Proof. intros [evs ->] H. apply in_or_app. now left. Qed.

Lemma after_after e1 e2 w : after e2 (after e1 w) = after (e1 ++ e2) w.
Proof. unfold after. simpl. now rewrite app_assoc. Qed.

Lemma service_calls_app t1 t2 :
  service_calls (t1 ++ t2) = service_calls t1 ++ service_calls t2.
Proof. unfold service_calls. apply List.filter_app. Qed.

(** *** Every computation of the pipeline only extends the trace *)

Lemma monotone_ret {A : Type} (a : A) : monotone (ret a).
Proof. intros w. apply extends_refl. Qed.

Lemma monotone_raise {A : Type} (e : exn) : monotone (@raise A e).
Proof. intros w. apply extends_refl. Qed.

Lemma monotone_lift {A : Type} (r : result A) : monotone (lift r).
Proof. intros w. apply extends_refl. Qed.

Lemma monotone_record_event ev : monotone (record_event ev).
Proof. intros w. now exists [ev]. Qed.

Lemma monotone_bind {A B : Type} (m : M A) (k : A -> M B) :
  monotone m -> (forall a, monotone (k a)) -> monotone (bind m k).
Proof.
  intros Hm Hk w. unfold bind. specialize (Hm w).
  destruct (m w) as [[e|a] w1]; simpl in *; [exact Hm|].
  eapply extends_trans; [exact Hm|apply Hk].
Qed.

Lemma monotone_try_except {A : Type} (m : M A) (h : exn -> M A) :
  monotone m -> (forall e, monotone (h e)) -> monotone (try_except m h).
Proof.
  intros Hm Hh w. unfold try_except. specialize (Hm w).
  destruct (m w) as [[e|a] w1]; simpl in *; [|exact Hm].
  eapply extends_trans; [exact Hm|apply Hh].
Qed.

Lemma monotone_time_strftime fmt : monotone (time_strftime E fmt).
Proof. intros w. exists []. simpl. now rewrite app_nil_r. Qed.

Lemma monotone_openai_Embedding_create model input :
  monotone (openai_Embedding_create E model input).
Proof. intros w. now exists [EmbeddingRequest model input]. Qed.

Lemma monotone_supabase_insert table rows :
  monotone (supabase_insert E table rows).
Proof. intros w. now exists [StoreInsert table rows]. Qed.

Lemma monotone_for_each {A : Type} (l : list A) (body : A -> M unit) :
  (forall x, monotone (body x)) -> monotone (for_each l body).
Proof.
  intros Hb. induction l as [|x l IH]; simpl.
  - apply monotone_ret.
  - apply monotone_bind; [apply Hb|intros _; exact IH].
Qed.

Lemma monotone_comprehension {A B : Type} (f : A -> M B) (l : list A) :
  (forall x, monotone (f x)) -> monotone (comprehension f l).
Proof.
  intros Hf. induction l as [|x l IH]; simpl.
  - apply monotone_ret.
  - apply monotone_bind; [apply Hf|intros y].
    apply monotone_bind; [exact IH|intros ys]. apply monotone_ret.
Qed.

Create HintDb mono.

#[local] Hint Resolve monotone_ret monotone_raise monotone_lift
  monotone_record_event monotone_time_strftime
  monotone_openai_Embedding_create monotone_supabase_insert : mono.

(** Decompose a computation along its binds, handlers and tests. *)
Ltac mono :=
  repeat first
    [ solve [auto with mono]
    | apply monotone_bind; [|intros ?]
    | apply monotone_try_except; [|intros ?]
    | apply monotone_for_each; intros ?
    | apply monotone_comprehension; intros ?
    | match goal with
      | |- monotone (if ?b then _ else _) => destruct b
      | |- monotone (logger _ _) => apply monotone_record_event
      | |- monotone (time_sleep _) => apply monotone_record_event
      | |- monotone (let '(_, _) := ?p in _) => destruct p
      end ].

Lemma monotone_extract_text file_path : monotone (extract_text E file_path).
Proof. unfold extract_text, extract_body. mono. Qed.

Lemma monotone_generate_embeddings texts :
  monotone (generate_embeddings E texts).
Proof. unfold generate_embeddings. mono. Qed.

Lemma monotone_build_row pair : monotone (build_row E pair).
Proof. unfold build_row. mono. Qed.

Lemma monotone_store_chunks chunks embeddings :
  monotone (store_chunks E chunks embeddings).
Proof.
  unfold store_chunks. mono. apply monotone_build_row.
Qed.

(** *** The embedder, run *)

Lemma generate_embeddings_run texts w :
  generate_embeddings E texts w
  = match embedding_service E w (py "text-embedding-3-small") texts with
    | inr data =>
        (inr (List.map item_embedding data),
         after [EmbeddingRequest (py "text-embedding-3-small") texts] w)
    | inl e =>
        (inl e,
         after [EmbeddingRequest (py "text-embedding-3-small") texts;
                Log ERROR (ErrorGeneratingEmbeddings e)] w)
    end.
Proof.
  unfold generate_embeddings, try_except, bind, openai_Embedding_create.
  destruct (embedding_service E w _ texts) as [e|data]; [|reflexivity].
  unfold logger, record_event, raise, after. simpl.
  now rewrite <- app_assoc.
Qed.

(** *** The store writer, run *)

Lemma metadata_without (k : str) (m : pydict) :
  filter (fun kv => kv.1 <> k) m = delete k m.
Proof.
  apply map_eq. intros i. destruct (decide (i = k)) as [->|Hne].
  - rewrite lookup_delete_eq. apply map_lookup_filter_None.
    right. intros x _ H. now apply H.
  - rewrite (lookup_delete_ne m k i) by congruence.
    destruct (m !! i) as [x|] eqn:Hi.
    + apply map_lookup_filter_Some. now split.
    + apply map_lookup_filter_None. now left.
Qed.

Lemma build_rows_run pairs : forall w,
  comprehension (build_row E) pairs w
  = (inr (rows_from E (clock w) pairs), tick (length pairs) w).
Proof.
  induction pairs as [|[c v] pairs IH]; intros w.
  - unfold tick. simpl. unfold ret. destruct w as [tr t]. simpl.
    now rewrite Nat.add_0_r.
  - cbn [comprehension rows_from]. unfold bind at 1.
    unfold build_row, bind at 1, time_strftime, ret at 1.
    unfold bind at 1. rewrite IH. unfold ret, tick, row_of. simpl.
    rewrite metadata_without. do 2 f_equal. lia.
Qed.

Lemma store_chunks_run chunks embeddings w :
  let pairs := combine chunks embeddings in
  let rows := rows_from E (clock w) pairs in
  let w1 := tick (length pairs) w in
  store_chunks E chunks embeddings w
  = match store_service E w1 (py "document_chunks") rows with
    | inr r =>
        (inr r,
         after [StoreInsert (py "document_chunks") rows;
                Log INFO (StoredChunks (len rows))] w1)
    | inl e =>
        (inl e,
         after [StoreInsert (py "document_chunks") rows;
                Log ERROR (ErrorStoringChunks e)] w1)
    end.
Proof.
  intros pairs rows w1.
  unfold store_chunks, try_except. unfold bind at 1.
  rewrite build_rows_run. fold pairs rows w1.
  unfold bind at 1, supabase_insert.
  destruct (store_service E w1 _ rows) as [e|r];
    unfold bind, logger, record_event, raise, ret, after; simpl;
    now rewrite <- app_assoc.
Qed.

Lemma rows_from_length t pairs : length (rows_from E t pairs) = length pairs.
Proof.
  revert t. induction pairs as [|[c v] pairs IH]; intros t; simpl; auto.
Qed.

Lemma rows_from_lookup pairs : forall t (i : nat) c v,
  pairs !! i = Some (c, v) ->
  rows_from E t pairs !! i = Some (row_of E (t + i) c v).
Proof.
  induction pairs as [|[c0 v0] pairs IH]; intros t i c v H; [discriminate|].
  destruct i as [|i]; simpl in *.
  - injection H as <- <-. now rewrite Nat.add_0_r.
  - rewrite (IH _ _ _ _ H). do 2 f_equal. lia.
Qed.

Lemma combine_lookup {A B : Type} (l : list A) (l' : list B) (i : nat) x y :
  l !! i = Some x -> l' !! i = Some y -> combine l l' !! i = Some (x, y).
Proof.
  revert l' i. induction l as [|a l IH]; intros [|b l'] [|i] Hx Hy;
    try discriminate; simpl in *.
  - congruence.
  - now apply IH.
Qed.

Lemma combine_lookup_inv {A B : Type} (l : list A) (l' : list B) (i : nat) p :
  combine l l' !! i = Some p -> l !! i = Some p.1 /\ l' !! i = Some p.2.
Proof.
  revert l' i. induction l as [|a l IH]; intros [|b l'] [|i] H;
    try discriminate; simpl in *.
  - injection H as <-. now split.
  - now apply IH.
Qed.

(** *** The orchestrator: one file *)

Variable self : DocumentIngestor.

#[local] Hint Resolve monotone_extract_text monotone_generate_embeddings
  monotone_store_chunks : mono.

Lemma try_except_total {A : Type} (m : M A) (h : exn -> M A) :
  (forall e, total (h e)) -> total (try_except m h).
Proof.
  intros Hh w. unfold try_except.
  destruct (m w) as [[e|a] w1]; [apply Hh|now exists a].
Qed.

(** An event recorded first in a [try] block is in the trace however
    the block ends. *)
Lemma try_event_first {A : Type} ev (k : unit -> M A) (h : exn -> M A) w :
  (forall u, monotone (k u)) -> (forall e, monotone (h e)) ->
  In ev (trace (snd (try_except (bind (record_event ev) k) h w))).
Proof.
  intros Hk Hh. unfold try_except, bind, record_event.
  set (w0 := {| trace := trace w ++ [ev]; clock := clock w |}).
  assert (H0 : In ev (trace w0)) by (apply in_or_app; right; now left).
  pose proof (Hk tt w0) as H1.
  destruct (k tt w0) as [[e|a] w1]; simpl in *.
  - eapply extends_In; [apply Hh|]. now apply (extends_In _ w0).
  - now apply (extends_In _ w0).
Qed.

Lemma monotone_process_file file_path :
  monotone (process_file E self file_path).
Proof. unfold process_file. cbv zeta. mono. Qed.

Lemma total_process_file file_path : total (process_file E self file_path).
Proof.
  unfold process_file. apply try_except_total.
  intros e w. now exists false.
Qed.

Lemma process_file_logged file_path w :
  In (Log INFO (Processing file_path))
    (trace (snd (process_file E self file_path w))).
Proof.
  unfold process_file, logger at 1. apply try_event_first.
  - intros _. cbv zeta. mono.
  - intros e. mono.
Qed.

(** An extraction that raises leaves the world as it is: the extractors
    only read. *)
Lemma extract_body_failure file_path ext w e :
  fst (extract_body E file_path ext w) = inl e ->
  snd (extract_body E file_path ext w) = w.
Proof.
  unfold extract_body, bind, lift, ret.
  repeat match goal with
         | |- context [if ?b then _ else _] => destruct b
         end; simpl; try reflexivity; try discriminate.
  destruct (pdf_extract_text E _); simpl; [reflexivity|discriminate].
Qed.

Lemma extract_text_failure file_path w e :
  fst (extract_body E file_path (str_lower E (path_suffix file_path)) w)
  = inl e ->
  extract_text E file_path w
  = (inr (py ""), after [Log ERROR (ErrorExtractingText file_path e)] w).
Proof.
  intros H. pose proof (extract_body_failure _ _ _ _ H) as Hw.
  unfold extract_text, try_except.
  destruct (extract_body E file_path _ w) as [r w1]. simpl in H, Hw.
  now subst.
Qed.

(** A file whose extraction raises: [process_file] logs the error and
    the empty content, calls no service, and returns [False]. *)
Lemma process_file_failure file_path w e :
  fst (extract_body E file_path (str_lower E (path_suffix file_path))
         (after [Log INFO (Processing file_path)] w)) = inl e ->
  process_file E self file_path w
  = (inr false,
     after [Log INFO (Processing file_path);
            Log ERROR (ErrorExtractingText file_path e);
            Log WARNING (EmptyFile file_path)] w).
Proof.
  intros H. unfold process_file, try_except. unfold bind at 1.
  unfold logger at 1, record_event at 1. unfold bind at 1.
  fold (after [Log INFO (Processing file_path)] w).
  rewrite (extract_text_failure _ _ _ H).
  change (truthy (strip (py ""))) with false. cbn [negb].
  unfold bind, logger, record_event, ret, after. simpl.
  now rewrite <- !app_assoc.
Qed.

(** *** The orchestrator: the run over the files *)

Lemma file_step_run n file_path w :
  exists ok w',
    process_file E self file_path w = (inr ok, w')
    /\ file_step E self n file_path w
       = (inr (count n ok), after (progress_events (count n ok)) w').
Proof.
  destruct (total_process_file file_path w) as [ok Hok].
  destruct (process_file E self file_path w) as [r w'] eqn:Hp.
  simpl in Hok. subst r. exists ok, w'. split; [reflexivity|].
  unfold file_step. unfold bind at 1. rewrite Hp. cbv zeta.
  fold (count n ok). unfold progress_events, bind, logger, record_event, ret.
  destruct ((processed (count n ok) + failed (count n ok)) mod 10 =? 0).
  - reflexivity.
  - unfold after. simpl. rewrite app_nil_r. now destruct w'.
Qed.

Lemma files_loop_app a b n w :
  files_loop E self (a ++ b) n w
  = bind (files_loop E self a n) (fun n' => files_loop E self b n') w.
Proof.
  revert n w. induction a as [|f a IH]; intros n w; [reflexivity|].
  cbn [files_loop app]. unfold bind in *.
  destruct (file_step E self n f w) as [[e|n1] w1]; [reflexivity|].
  apply IH.
Qed.

Lemma files_loop_run files : forall n w,
  exists n' w',
    files_loop E self files n w = (inr n', w')
    /\ extends w w'
    /\ processed n <= processed n' /\ failed n <= failed n'
    /\ processed n' + failed n' = processed n + failed n + len files
    /\ (forall g, In g files -> In (Log INFO (Processing g)) (trace w')).
Proof.
  induction files as [|f files IH]; intros n w.
  - exists n, w. repeat split; try lia.
    + apply extends_refl.
    + unfold len. simpl. lia.
    + intros g [].
  - destruct (file_step_run n f w) as (ok & w1 & Hp & Hs).
    destruct (IH (count n ok) (after (progress_events (count n ok)) w1))
      as (n' & w' & Hl & Hext & Hpr & Hfa & Hsum & Hlog).
    assert (Hw1 : extends w w1).
    { pose proof (monotone_process_file f w) as H. now rewrite Hp in H. }
    assert (Hf : In (Log INFO (Processing f)) (trace w1)).
    { pose proof (process_file_logged f w) as H. now rewrite Hp in H. }
    exists n', w'. simpl. unfold bind at 1. rewrite Hs.
    split; [exact Hl|].
    split.
    { eapply extends_trans; [exact Hw1|].
      eapply extends_trans; [apply extends_after|exact Hext]. }
    unfold len in *. simpl length.
    destruct ok; simpl in *; repeat split; try lia;
      intros g [<-|Hg]; auto;
      (eapply extends_In; [exact Hext|]);
      (eapply extends_In; [apply extends_after|exact Hf]).
Qed.

End PipelineFacts.

(** ** The embedder, the store writer and the run *)

Section PipelineClaims.

Variable E : Env.
Variable self : DocumentIngestor.

(** C4 (as amended): when the embedding service answers,
    [generate_embeddings] returns one vector per item of the answer,
    in the order of the answer: the [embedding] of each item.  It has
    as many vectors as texts exactly when the service answered with as
    many items as texts, which the code does not check.  When the
    service raises, [generate_embeddings] raises the same error, having
    logged it: no partial, empty or default list is returned. *)
Theorem generate_embeddings_response texts w :
  (forall data,
      embedding_service E w (py "text-embedding-3-small") texts = inr data ->
      exists vectors,
        generate_embeddings E texts w
        = (inr vectors,
           after [EmbeddingRequest (py "text-embedding-3-small") texts] w)
        /\ length vectors = length data
        /\ (forall (i : nat) item,
               data !! i = Some item ->
               vectors !! i = Some (item_embedding item))
        /\ (length vectors = length texts <-> length data = length texts))
  /\ (forall e,
         embedding_service E w (py "text-embedding-3-small") texts = inl e ->
         generate_embeddings E texts w
         = (inl e,
            after [EmbeddingRequest (py "text-embedding-3-small") texts;
                   Log ERROR (ErrorGeneratingEmbeddings e)] w)).
Proof.
  split.
  - intros data Hs. exists (List.map item_embedding data).
    split; [|split; [|split]].
    + unfold generate_embeddings, try_except, bind, openai_Embedding_create,
        ret, after. now rewrite Hs.
    + apply length_map.
    + intros i item Hi. now rewrite lookup_map, Hi.
    + now rewrite length_map.
  - intros e Hs.
    unfold generate_embeddings, try_except, bind, openai_Embedding_create,
      logger, record_event, raise, after. rewrite Hs. cbn [trace clock].
    now rewrite <- app_assoc.
Qed.

(** C5: for as many chunks as embeddings, [store_chunks] builds one row
    per pair: the chunk's content, its metadata without [chunk_index],
    the [chunk_index] of its metadata, the embedding and a timestamp;
    it sends all the rows in one insert, and returns what the store
    returns or raises what the store raises. *)
Theorem store_chunks_records chunks embeddings w :
  length chunks = length embeddings ->
  exists rows,
    length rows = length chunks
    /\ (forall (i : nat) c v,
           chunks !! i = Some c -> embeddings !! i = Some v ->
           exists r,
             rows !! i = Some r
             /\ row_content r = content c
             /\ row_metadata r = delete k_chunk_index (metadata c)
             /\ row_chunk_index r = dict_get (metadata c) k_chunk_index
             /\ row_embedding r = v
             /\ row_created_at r
                = strftime E (clock w + i) (py "%Y-%m-%d %H:%M:%S"))
    /\ service_calls (trace (snd (store_chunks E chunks embeddings w)))
       = service_calls (trace w) ++ [StoreInsert (py "document_chunks") rows]
    /\ (forall e,
           store_service E (tick (length rows) w) (py "document_chunks") rows
           = inl e ->
           fst (store_chunks E chunks embeddings w) = inl e)
    /\ (forall stored,
           store_service E (tick (length rows) w) (py "document_chunks") rows
           = inr stored ->
           fst (store_chunks E chunks embeddings w) = inr stored).
Proof.
  intros Hlen.
  pose proof (store_chunks_run E chunks embeddings w) as Hrun.
  cbv zeta in Hrun.
  set (pairs := combine chunks embeddings) in *.
  set (rows := rows_from E (clock w) pairs) in *.
  assert (Hrows : length rows = length pairs) by apply rows_from_length.
  exists rows. rewrite Hrows. split; [|split; [|split; [|split]]].
  - unfold pairs. rewrite length_combine. lia.
  - intros i c v Hc Hv. exists (row_of E (clock w + i) c v).
    split; [|now repeat split].
    apply rows_from_lookup. now apply combine_lookup.
  - rewrite Hrun.
    destruct (store_service E _ _ rows); simpl;
      now rewrite service_calls_app.
  - intros e He. now rewrite Hrun, He.
  - intros r Hr. now rewrite Hrun, Hr.
Qed.

(** C10: whatever the two lengths, [store_chunks] builds rows for the
    pairs of the [zip] only, as many as the shorter list has; when the
    store accepts them it returns normally, having logged nothing but
    the number of rows stored. *)
Theorem store_chunks_truncates chunks embeddings w :
  exists rows,
    length rows = Nat.min (length chunks) (length embeddings)
    /\ (forall (i : nat) r,
           rows !! i = Some r ->
           exists c v,
             chunks !! i = Some c /\ embeddings !! i = Some v
             /\ r = row_of E (clock w + i) c v)
    /\ (forall stored,
           store_service E (tick (length rows) w) (py "document_chunks") rows
           = inr stored ->
           store_chunks E chunks embeddings w
           = (inr stored,
              after [StoreInsert (py "document_chunks") rows;
                     Log INFO (StoredChunks (len rows))]
                (tick (length rows) w))).
Proof.
  pose proof (store_chunks_run E chunks embeddings w) as Hrun.
  cbv zeta in Hrun.
  set (pairs := combine chunks embeddings) in *.
  set (rows := rows_from E (clock w) pairs) in *.
  assert (Hrows : length rows = length pairs) by apply rows_from_length.
  exists rows. rewrite Hrows. split; [|split].
  - unfold pairs. apply length_combine.
  - intros i r Hr.
    destruct (lookup_lt_is_Some_2 pairs i) as [[c v] Hp].
    { rewrite <- Hrows. now apply lookup_lt_Some in Hr. }
    destruct (combine_lookup_inv _ _ _ _ Hp) as [Hc Hv].
    exists c, v. split; [exact Hc|]. split; [exact Hv|].
    unfold rows in Hr. rewrite (rows_from_lookup E _ _ _ _ _ Hp) in Hr.
    congruence.
  - intros r Hr. now rewrite Hrun, Hr.
Qed.

Lemma flat_map_nil {A B : Type} (f : A -> list B) (l : list A) :
  (forall x, In x l -> f x = []) -> flat_map f l = [].
Proof.
  induction l as [|x l IH]; intros H; simpl; [reflexivity|].
  rewrite (H x) by now left. apply IH. intros y Hy. apply H. now right.
Qed.

(** C6: in a run over a directory, a file whose extraction raises is
    counted as failed and not as processed, and the files after it are
    processed all the same. *)
Theorem extraction_failure_counted directory_path pre f post e w :
  path_exists E directory_path = true ->
  find_files E directory_path = pre ++ f :: post ->
  (forall w',
      fst (extract_body E f (str_lower E (path_suffix f)) w') = inl e) ->
  exists n1 w1 n2 w2,
    files_loop E self pre {| processed := 0; failed := 0 |}
      (after [Log INFO (FoundFiles (len (pre ++ f :: post)))] w)
    = (inr n1, w1)
    /\ file_step E self n1 f w1
       = (inr (count_failed n1),
          after (progress_events (count_failed n1))
            (after [Log INFO (Processing f);
                    Log ERROR (ErrorExtractingText f e);
                    Log WARNING (EmptyFile f)] w1))
    /\ files_loop E self post (count_failed n1)
         (after (progress_events (count_failed n1))
            (after [Log INFO (Processing f);
                    Log ERROR (ErrorExtractingText f e);
                    Log WARNING (EmptyFile f)] w1))
       = (inr n2, w2)
    /\ (forall g, In g post -> In (Log INFO (Processing g)) (trace w2))
    /\ process_directory E self directory_path w
       = (inr tt, after [Log INFO (Completed (processed n2) (failed n2))] w2)
    /\ 1 <= failed n2
    /\ processed n2 <= len pre + len post.
Proof.
  intros Hex Hfiles Hfail.
  set (w0 := after [Log INFO (FoundFiles (len (pre ++ f :: post)))] w).
  destruct (files_loop_run E self pre {| processed := 0; failed := 0 |} w0)
    as (n1 & w1 & Hpre & _ & Hp1 & Hf1 & Hsum1 & _).
  set (w1' := after [Log INFO (Processing f);
                     Log ERROR (ErrorExtractingText f e);
                     Log WARNING (EmptyFile f)] w1).
  assert (Hstep : file_step E self n1 f w1
                  = (inr (count_failed n1),
                     after (progress_events (count_failed n1)) w1')).
  { destruct (file_step_run E self n1 f w1) as (ok & w' & Hp & Hs).
    rewrite (process_file_failure E self f w1 e (Hfail _)) in Hp.
    injection Hp as <- <-. exact Hs. }
  destruct (files_loop_run E self post (count_failed n1)
              (after (progress_events (count_failed n1)) w1'))
    as (n2 & w2 & Hpost & _ & Hp2 & Hf2 & Hsum2 & Hlog).
  exists n1, w1, n2, w2.
  split; [exact Hpre|]. split; [exact Hstep|]. split; [exact Hpost|].
  split; [exact Hlog|]. split; [|simpl in *; lia].
  unfold process_directory. rewrite Hex. cbn [negb]. cbv zeta.
  rewrite Hfiles. unfold bind at 1. unfold logger at 1, record_event at 1.
  change {| trace := trace w
                     ++ [Log INFO (FoundFiles (len (pre ++ f :: post)))];
            clock := clock w |} with w0.
  unfold bind at 1. rewrite files_loop_app. unfold bind at 1.
  rewrite Hpre. cbn [files_loop]. unfold bind at 1. rewrite Hstep, Hpost.
  reflexivity.
Qed.

(** C9: in an existing directory without any file of a supported
    extension, the run ends with 0 processed and 0 failed, and sends
    nothing to the embedding service or to the store. *)
Theorem empty_directory_run directory_path w :
  path_exists E directory_path = true ->
  (forall ext,
      ext ∈ supported_extensions ->
      rglob E directory_path (py "*" ++ ext) = []) ->
  process_directory E self directory_path w
  = (inr tt, after [Log INFO (FoundFiles 0); Log INFO (Completed 0 0)] w)
  /\ service_calls (trace (snd (process_directory E self directory_path w)))
     = service_calls (trace w).
Proof.
  intros Hex Hnone.
  assert (Hfiles : find_files E directory_path = []).
  { unfold find_files. apply flat_map_nil. intros ext Hin.
    apply Hnone, elem_of_elements, list_elem_of_In, Hin. }
  assert (Hrun : process_directory E self directory_path w
                 = (inr tt,
                    after [Log INFO (FoundFiles 0); Log INFO (Completed 0 0)]
                      w)).
  { unfold process_directory. rewrite Hex, Hfiles. cbn [negb]. cbv zeta.
    unfold bind, logger, record_event, ret, after. simpl.
    now rewrite <- app_assoc. }
  split; [exact Hrun|]. rewrite Hrun. simpl.
  rewrite service_calls_app. simpl. apply app_nil_r.
Qed.

End PipelineClaims.

(** *** The pipeline in the sample environment *)

(** The run over [docs]: the broken PDF fails, the other one is
    chunked, embedded and stored. *)
Example process_directory_docs :
  process_directory sample_env init (py "docs") world0
  = (inr tt,
     {| trace :=
          [Log INFO (FoundFiles 2);
           Log INFO (Processing broken_pdf);
           Log ERROR (ErrorExtractingText broken_pdf pdf_syntax_error);
           Log WARNING (EmptyFile broken_pdf);
           Log INFO (Processing report_pdf);
           EmbeddingRequest (py "text-embedding-3-small")
             [py "Hello world. This is  a test. Bye"];
           StoreInsert (py "document_chunks")
             [row_of sample_env 0
                {| content := py "Hello world. This is  a test. Bye";
                   metadata :=
                     <[k_chunk_index := VInt 0]>
                       (<[py "file_size" := VInt 34]>
                          (<[py "directory" := VStr (py "docs")]>
                             (<[py "filename" := VStr (py "report.pdf")]>
                                (<[py "source" :=
                                     VStr (py "docs/report.pdf")]> ∅)))) |}
                [0.5%float; 0%float]];
           Log INFO (StoredChunks 1);
           Sleep 100;
           Log INFO (SuccessfullyProcessed report_pdf 1);
           Log INFO (Completed 1 1)];
        clock := 1 |}).
Proof. vm_compute. reflexivity. Qed.

(** C4, counterexample: a service that answers with two items gives
    two vectors for three texts. *)
Lemma generate_embeddings_length_counterexample :
  exists vectors,
    fst (generate_embeddings env_short [py "Hello world"; py "Bye"; py "End"]
           world0)
    = inr vectors
    /\ length vectors = 2%nat
    /\ length vectors <> length [py "Hello world"; py "Bye"; py "End"].
Proof.
  exists [[0.5%float; 0%float]; [0.5%float; 1%float]].
  split; [vm_compute; reflexivity|]. split; [reflexivity|]. discriminate.
Qed.

(** C4 in the sample environment: two texts give the two vectors of
    the answer, and the empty input is rejected by the service. *)
Lemma generate_embeddings_response_witness :
  (exists vectors,
      generate_embeddings sample_env [py "Hello world"; py "Bye"] world0
      = (inr vectors,
         after [EmbeddingRequest (py "text-embedding-3-small")
                  [py "Hello world"; py "Bye"]] world0)
      /\ length vectors = 2%nat
      /\ vectors !! 1%nat = Some [0.5%float; 1%float])
  /\ generate_embeddings sample_env [] world0
     = (inl invalid_request_error,
        after [EmbeddingRequest (py "text-embedding-3-small") [];
               Log ERROR (ErrorGeneratingEmbeddings invalid_request_error)]
          world0).
Proof.
  split.
  - destruct (proj1 (generate_embeddings_response sample_env
                       [py "Hello world"; py "Bye"] world0)
                (sample_items [py "Hello world"; py "Bye"]) eq_refl)
      as (vectors & Hrun & Hlen & Hat & _).
    exists vectors. split; [exact Hrun|]. split; [exact Hlen|].
    exact (Hat 1%nat {| item_embedding := [0.5%float; 1%float];
                        item_index := 1 |} eq_refl).
  - exact (proj2 (generate_embeddings_response sample_env [] world0)
             invalid_request_error eq_refl).
Defined.

(** C5 in the sample environment: two chunks, two embeddings, one
    insert of two rows. *)
Lemma store_chunks_records_witness :
  length [chunk_short; chunk_bye] = length [[0.5%float]; [0.25%float]]
  /\ exists rows,
       length rows = 2%nat
       /\ service_calls
            (trace (snd (store_chunks sample_env [chunk_short; chunk_bye]
                           [[0.5%float]; [0.25%float]] world0)))
          = [StoreInsert (py "document_chunks") rows]
       /\ fst (store_chunks sample_env [chunk_short; chunk_bye]
                 [[0.5%float]; [0.25%float]] world0)
          = inr rows.
Proof.
  split; [reflexivity|].
  destruct (store_chunks_records sample_env [chunk_short; chunk_bye]
              [[0.5%float]; [0.25%float]] world0 eq_refl)
    as (rows & Hlen & _ & Hcalls & _ & Hok).
  exists rows. split; [exact Hlen|]. split; [exact Hcalls|].
  apply Hok. reflexivity.
Defined.

(** C10 in the sample environment: three chunks and two embeddings
    give two rows, stored without complaint. *)
Lemma store_chunks_truncates_witness :
  exists rows,
    length rows = 2%nat
    /\ store_chunks sample_env [chunk_short; chunk_bye; chunk_long_0]
         [[0.5%float]; [0.25%float]] world0
       = (inr rows,
          after [StoreInsert (py "document_chunks") rows;
                 Log INFO (StoredChunks (len rows))]
            (tick (length rows) world0)).
Proof.
  destruct (store_chunks_truncates sample_env
              [chunk_short; chunk_bye; chunk_long_0]
              [[0.5%float]; [0.25%float]] world0)
    as (rows & Hlen & _ & Hok).
  exists rows. split; [exact Hlen|]. apply Hok. reflexivity.
Defined.

(** C6 in the sample environment: the broken PDF is counted as failed
    and the PDF after it is processed. *)
Lemma extraction_failure_counted_witness :
  path_exists sample_env (py "docs") = true
  /\ find_files sample_env (py "docs") = [] ++ broken_pdf :: [report_pdf]
  /\ (forall w',
         fst (extract_body sample_env broken_pdf
                (str_lower sample_env (path_suffix broken_pdf)) w')
         = inl pdf_syntax_error)
  /\ exists n2 w2,
       process_directory sample_env init (py "docs") world0
       = (inr tt, after [Log INFO (Completed (processed n2) (failed n2))] w2)
       /\ In (Log INFO (Processing report_pdf)) (trace w2)
       /\ 1 <= failed n2
       /\ processed n2 <= 1.
Proof.
  assert (H1 : path_exists sample_env (py "docs") = true) by reflexivity.
  assert (H2 : find_files sample_env (py "docs")
               = [] ++ broken_pdf :: [report_pdf])
    by (vm_compute; reflexivity).
  assert (H3 : forall w',
             fst (extract_body sample_env broken_pdf
                    (str_lower sample_env (path_suffix broken_pdf)) w')
             = inl pdf_syntax_error)
    by (intros w'; vm_compute; reflexivity).
  split; [exact H1|]. split; [exact H2|]. split; [exact H3|].
  destruct (extraction_failure_counted sample_env init (py "docs")
              [] broken_pdf [report_pdf] pdf_syntax_error world0 H1 H2 H3)
    as (n1 & w1 & n2 & w2 & _ & _ & _ & Hlog & Hrun & Hf & Hp).
  exists n2, w2. split; [exact Hrun|]. split; [|split; [exact Hf|exact Hp]].
  apply Hlog. now left.
Defined.

(** C9 in the sample environment: the run over the empty directory. *)
Lemma empty_directory_run_witness :
  path_exists sample_env (py "empty") = true
  /\ (forall ext,
         ext ∈ supported_extensions ->
         rglob sample_env (py "empty") (py "*" ++ ext) = [])
  /\ process_directory sample_env init (py "empty") world0
     = (inr tt,
        after [Log INFO (FoundFiles 0); Log INFO (Completed 0 0)] world0)
  /\ service_calls
       (trace (snd (process_directory sample_env init (py "empty") world0)))
     = service_calls (trace world0).
Proof.
  assert (H1 : path_exists sample_env (py "empty") = true) by reflexivity.
  assert (H2 : forall ext,
             ext ∈ supported_extensions ->
             rglob sample_env (py "empty") (py "*" ++ ext) = [])
    by (intros ext _; reflexivity).
  split; [exact H1|]. split; [exact H2|].
  exact (empty_directory_run sample_env init (py "empty") world0 H1 H2).
Defined.

(** ** More about the chunker *)

Section ChunkerMore.

Variable self : DocumentIngestor.
Variable md : pydict.

Lemma assemble_length gs : forall prev,
  length (assemble prev gs) = length gs.
Proof.
  induction gs as [|g gs IH]; intros prev; simpl; [reflexivity|].
  now rewrite IH.
Qed.

Lemma concat_nonempty_groups {A : Type} (gs : list (list A)) :
  Forall (fun g => g <> []) gs -> (length gs <= length (concat gs))%nat.
Proof.
  induction 1 as [|g gs Hg _ IH]; simpl; [lia|].
  rewrite length_app. destruct g; [congruence|]. simpl. lia.
Qed.

(** The chunk a group ends up in is its seed followed by the group,
    rejoined. *)
Lemma assemble_lookup_group gs : forall prev (i : nat) g,
  gs !! i = Some g ->
  exists sd, assemble prev gs !! i = Some (sd ++ join (py ". ") g).
Proof.
  induction gs as [|g0 gs IH]; intros prev i g H; [discriminate|].
  destruct i as [|i]; simpl in *.
  - injection H as <-. now exists (seed prev).
  - now apply IH.
Qed.

Lemma join_infix sep g s :
  In s g -> exists front back, join sep g = front ++ s ++ back.
Proof.
  induction g as [|w g IH]; intros H; [destruct H|].
  destruct g as [|v g].
  - destruct H as [<-|[]]. exists [], []. now rewrite app_nil_r.
  - rewrite join_cons2. destruct H as [<-|H].
    + exists [], (sep ++ join sep (v :: g)). reflexivity.
    + destruct (IH H) as (front & back & E).
      exists (w ++ sep ++ front), back. rewrite E.
      now rewrite <- !app_assoc.
Qed.

(** Chunk [i] carries the metadata it was given, with [chunk_index]
    set to [i]: a [chunk_index] already there is replaced, every other
    key is kept. *)
Theorem create_chunks_metadata text (i : nat) c :
  create_chunks self text md !! i = Some c ->
  metadata c !! k_chunk_index = Some (VInt (Z.of_nat i))
  /\ forall k, k <> k_chunk_index -> metadata c !! k = md !! k.
Proof.
  intros Hi.
  destruct (create_chunks_groups self md text) as (gs & _ & _ & _ & _ & _ & Hidx).
  rewrite (Hidx i c Hi). split.
  - apply lookup_insert_eq.
  - intros k Hk. apply lookup_insert_ne. congruence.
Qed.

Lemma chunks_nil_iff text :
  create_chunks self text md = [] <-> sentences text = [].
Proof.
  destruct (create_chunks_groups self md text)
    as (gs & Hcat & Hne & Hcont & _).
  assert (Hlen : length (create_chunks self text md) = length gs).
  { rewrite <- (length_map content), Hcont. apply assemble_length. }
  split.
  - intros E. rewrite E in Hlen. destruct gs; [|discriminate].
    now rewrite <- Hcat.
  - intros E. rewrite E in Hcat.
    pose proof (concat_nonempty_groups gs Hne) as H. rewrite Hcat in H.
    destruct gs; [|simpl in H; lia].
    destruct (create_chunks self text md); [reflexivity|discriminate].
Qed.

(** [create_chunks] returns no chunk exactly when the text has no
    sentence unit, and never more chunks than there are units. *)
Theorem create_chunks_count text :
  (create_chunks self text md = [] <-> sentences text = [])
  /\ (length (create_chunks self text md) <= length (sentences text))%nat.
Proof.
  split; [apply chunks_nil_iff|].
  destruct (create_chunks_groups self md text)
    as (gs & Hcat & Hne & Hcont & _).
  rewrite <- (length_map content), Hcont, assemble_length, <- Hcat.
  now apply concat_nonempty_groups.
Qed.

(** Every sentence unit is non-empty, has no whitespace at either end
    and holds no period. *)
Theorem sentences_normal text :
  Forall (fun s => s <> [] /\ strip s = s /\ ~ In DOT s) (sentences text).
Proof.
  eapply Forall_impl; [apply sentences_units|].
  intros s [Ht Hfree]. split; [now apply tight_nonempty|].
  split; [now apply strip_id|].
  intros Hin. rewrite Forall_forall in Hfree.
  apply list_elem_of_In, Hfree in Hin. now rewrite N.eqb_refl in Hin.
Qed.

(** The buffer of the loop is trimmed after any number of sentence
    units. *)
Lemma buffer_trimmed sents :
  Forall tight sents ->
  strip (current_chunk (chunk_loop self md sents chunk_init))
  = current_chunk (chunk_loop self md sents chunk_init).
Proof.
  intros Hu. destruct (chunk_loop_inv self md _ Hu) as (gs & g & _ & I).
  destruct g as [|s0 g].
  - destruct (chunk_inv_empty _ _ _ _ _ I) as [-> _]. reflexivity.
  - apply strip_id. apply (inv_tight _ _ _ _ _ _ I). discriminate.
Qed.

Lemma chunk_loop_unstripped_eq sents :
  Forall tight sents ->
  chunk_loop_unstripped self md sents chunk_init
  = chunk_loop self md sents chunk_init.
Proof.
  induction sents as [|s sents IH] using rev_ind; intros Hu;
    [reflexivity|].
  apply Forall_app in Hu as [Hu _].
  rewrite chunk_loop_snoc. unfold chunk_loop_unstripped.
  rewrite fold_left_app. cbn [fold_left].
  fold (chunk_loop_unstripped self md sents chunk_init). rewrite (IH Hu).
  unfold chunk_step_unstripped, chunk_step, emit_unstripped, emit.
  now rewrite (buffer_trimmed _ Hu).
Qed.

(** The [strip()] applied to the buffer removes nothing: the buffer is
    trimmed after every iteration of the loop, and the chunker with
    every [strip()] of the buffer left out returns the same chunks. *)
Theorem create_chunks_strip_identity text :
  (forall pre post,
      sentences text = pre ++ post ->
      strip (current_chunk (chunk_loop self md pre chunk_init))
      = current_chunk (chunk_loop self md pre chunk_init))
  /\ create_chunks self text md = create_chunks_unstripped self text md.
Proof.
  assert (Hu : Forall tight (sentences text)).
  { eapply Forall_impl; [apply sentences_units|]. now intros s [H _]. }
  split.
  - intros pre post Hs. apply buffer_trimmed.
    rewrite Hs in Hu. now apply Forall_app in Hu as [Hu _].
  - unfold create_chunks, create_chunks_unstripped, emit, emit_unstripped.
    cbv zeta.
    rewrite (chunk_loop_unstripped_eq _ Hu), (buffer_trimmed _ Hu).
    reflexivity.
Qed.

(** Rejoining the sentence units of a text with the delimiter gives a
    text with the same units, hence the same chunks. *)
Theorem sentences_rejoin text :
  sentences (join (py ". ") (sentences text)) = sentences text
  /\ create_chunks self (join (py ". ") (sentences text)) md
     = create_chunks self text md.
Proof.
  assert (H : sentences (join (py ". ") (sentences text)) = sentences text)
    by apply sentences_join, sentences_units.
  split; [exact H|]. unfold create_chunks. now rewrite H.
Qed.

(** No sentence unit is lost: each one occurs, contiguous, in the
    content of some chunk. *)
Theorem create_chunks_covers text s :
  In s (sentences text) ->
  exists c front back,
    In c (create_chunks self text md)
    /\ content c = front ++ s ++ back.
Proof.
  intros Hs.
  destruct (create_chunks_groups self md text)
    as (gs & Hcat & _ & Hcont & _).
  rewrite <- Hcat in Hs. apply in_concat in Hs as (g & Hg & Hs).
  apply list_elem_of_In, list_elem_of_lookup in Hg as [i Hi].
  destruct (assemble_lookup_group gs None i g Hi) as (sd & Hc).
  rewrite <- Hcont, lookup_map in Hc.
  destruct (create_chunks self text md !! i) as [c|] eqn:Eci;
    [|discriminate].
  simpl in Hc. injection Hc as Hc.
  destruct (join_infix (py ". ") g s Hs) as (front & back & E).
  exists c, (sd ++ front), back. split.
  - apply list_elem_of_In, list_elem_of_lookup. now exists i.
  - rewrite Hc, E. now rewrite <- app_assoc.
Qed.

(** *** Units that are all longer than the threshold *)

(** Closing the buffer: the step taken when the unit does not fit. *)
Lemma chunk_step_closes sents st gs g s :
  chunk_inv self md sents st gs g -> g <> [] -> tight s ->
  chunk_size self < len s ->
  chunk_inv self md (sents ++ [s]) (chunk_step self md st s) (gs ++ [g]) [s].
Proof.
  intros I Hg Hs Hlong.
  pose proof (inv_tight _ _ _ _ _ _ I Hg) as Hcur.
  pose proof (tight_nonempty _ Hcur) as Hne. apply truthy_true in Hne.
  assert (Hemit : strip (current_chunk st) = current_chunk st)
    by now apply strip_id.
  assert (C : (current_length st + len s >? chunk_size self)
              && truthy (current_chunk st) = true).
  { rewrite Hne, andb_true_r, Z.gtb_ltb. apply Z.ltb_lt.
    rewrite (inv_length _ _ _ _ _ _ I).
    pose proof (len_nonneg (current_chunk st)). lia. }
  unfold chunk_step. cbv zeta. rewrite C.
  constructor; cbn [chunks current_chunk current_length].
  - rewrite concat_app. simpl. rewrite app_nil_r.
    now rewrite (inv_cover _ _ _ _ _ _ I).
  - apply Forall_app. split; [apply (inv_groups _ _ _ _ _ _ I)|].
    now constructor.
  - discriminate.
  - rewrite map_app, assemble_snoc. simpl. rewrite Hemit.
    rewrite <- (inv_contents _ _ _ _ _ _ I), last_from_None.
    f_equal. f_equal. exact (inv_current _ _ _ _ _ _ I).
  - rewrite map_app. simpl. rewrite last_snoc, Hemit. simpl.
    now rewrite <- app_assoc.
  - reflexivity.
  - intros _. apply tight_app; [|exact Hs]. apply overlap_starts, Hcur.
  - rewrite map_app. apply Forall2_app; [apply (inv_sizes _ _ _ _ _ _ I)|].
    constructor; [|constructor]. simpl. rewrite Hemit.
    destruct (inv_size _ _ _ _ _ _ I) as [H|H]; [now left|right].
    destruct g as [|? [|? ?]]; simpl in *; [congruence|reflexivity|lia].
  - right. simpl. lia.
  - rewrite map_app. apply Forall_app.
    split; [apply (inv_tights _ _ _ _ _ _ I)|].
    constructor; [|constructor]. simpl. rewrite Hemit. exact Hcur.
  - intros i c Hi. apply lookup_app_Some in Hi as [Hi|[Hle Hi]].
    + now apply (inv_index _ _ _ _ _ _ I).
    + destruct (i - length (chunks st))%nat as [|k] eqn:Ek;
        [|destruct k; discriminate].
      simpl in Hi. injection Hi as <-. simpl. unfold len.
      do 3 f_equal. lia.
Qed.

Lemma singles_snoc sents s : singles (sents ++ [s]) = singles sents ++ [[s]].
Proof. unfold singles. now rewrite map_app. Qed.

(** The first unit opens the first buffer. *)
Lemma chunk_step_first s :
  tight s ->
  chunk_inv self md [s] (chunk_step self md chunk_init s) [] [s].
Proof.
  intros Hs. unfold chunk_step. cbv zeta.
  change (truthy (current_chunk chunk_init)) with false.
  rewrite andb_false_r.
  constructor; cbn [chunks current_chunk current_length chunk_init];
    try reflexivity; try congruence.
  - constructor.
  - now intros _.
  - constructor.
  - right. simpl. lia.
  - constructor.
  - intros i c H. discriminate.
Qed.

Lemma chunk_loop_all_long sents s :
  Forall (fun s => tight s /\ chunk_size self < len s) (sents ++ [s]) ->
  chunk_inv self md (sents ++ [s])
    (chunk_loop self md (sents ++ [s]) chunk_init) (singles sents) [s].
Proof.
  revert s. induction sents as [|s' sents IH] using rev_ind; intros s H.
  - apply Forall_cons in H as [[Hs _] _]. now apply chunk_step_first.
  - apply Forall_app in H as [H Hs].
    apply Forall_cons in Hs as [[Hs Hlong] _].
    rewrite chunk_loop_snoc, singles_snoc.
    apply chunk_step_closes; [now apply IH|discriminate|exact Hs|exact Hlong].
Qed.

(** When every sentence unit is longer than [chunk_size], each unit gets
    a chunk of its own: the first chunk is the first unit, every other
    chunk is the overlap of the chunk before it, the delimiter and its
    unit. *)
Theorem create_chunks_all_long text :
  Forall (fun s => chunk_size self < len s) (sentences text) ->
  List.map content (create_chunks self text md)
  = assemble None (singles (sentences text))
  /\ length (create_chunks self text md) = length (sentences text).
Proof.
  intros Hlong.
  assert (H : List.map content (create_chunks self text md)
              = assemble None (singles (sentences text))).
  { pose proof (sentences_units text) as Hu.
    unfold create_chunks. cbv zeta.
    destruct (sentences text) as [|s sents _] using rev_ind;
      [reflexivity|].
    assert (Hall : Forall (fun s => tight s /\ chunk_size self < len s)
                     (sents ++ [s])).
    { rewrite Forall_forall in *. intros x Hx. split; [|now apply Hlong].
      now destruct (Hu x Hx). }
    pose proof (chunk_loop_all_long sents s Hall) as I.
    pose proof (inv_tight _ _ _ _ _ _ I ltac:(discriminate)) as Hcur.
    rewrite (strip_id _ Hcur).
    pose proof (tight_nonempty _ Hcur) as Hne. apply truthy_true in Hne.
    rewrite Hne, map_app. simpl. rewrite (strip_id _ Hcur).
    rewrite singles_snoc, assemble_snoc.
    rewrite <- (inv_contents _ _ _ _ _ _ I), last_from_None.
    f_equal. f_equal. exact (inv_current _ _ _ _ _ _ I). }
  split; [exact H|].
  rewrite <- (length_map content), H, assemble_length.
  unfold singles. apply length_map.
Qed.

(** *** Blank text *)

Lemma lstrip_nil_spaces s :
  lstrip s = [] -> Forall (fun c => isspace c = true) s.
Proof.
  induction s as [|c s IH]; simpl; [constructor|].
  destruct (isspace c) eqn:Ec; [|discriminate].
  intros H. constructor; [exact Ec|now apply IH].
Qed.

Lemma spaces_lstrip s :
  Forall (fun c => isspace c = true) s -> lstrip s = [].
Proof.
  induction 1 as [|c s Hc _ IH]; simpl; [reflexivity|]. now rewrite Hc.
Qed.

Lemma strip_nil_spaces s :
  strip s = [] <-> Forall (fun c => isspace c = true) s.
Proof.
  split.
  - intros H. apply lstrip_nil_spaces.
    destruct (lstrip_cases s) as [E|E]; [exact E|].
    destruct (strip_cases s) as [_|Ht].
    + unfold strip, rstrip in H.
      destruct (lstrip s) as [|c l]; [reflexivity|].
      simpl in E. apply negb_true_iff in E.
      simpl rev in H. rewrite (lstrip_snoc _ _ E), rev_app_distr in H.
      discriminate.
    + rewrite H in Ht. now destruct Ht.
  - intros H. unfold strip. now rewrite (spaces_lstrip _ H).
Qed.

Lemma split_when_Forall (P : char -> Prop) p s :
  Forall P s -> Forall (Forall P) (split_when p s).
Proof.
  induction 1 as [|c s Hc Hs IH]; simpl.
  - repeat constructor.
  - destruct (p c).
    + constructor; [constructor|exact IH].
    + destruct (split_when p s) as [|w ws].
      * repeat constructor. exact Hc.
      * apply Forall_cons in IH as [Hw Hws].
        constructor; [now constructor|exact Hws].
Qed.

Lemma blank_no_sentences text : strip text = [] -> sentences text = [].
Proof.
  intros H. apply strip_nil_spaces in H. unfold sentences, split.
  pose proof (split_when_Forall _ (N.eqb DOT) _ H) as Hp.
  induction Hp as [|w ws Hw _ IH]; [reflexivity|]. simpl.
  apply strip_nil_spaces in Hw. rewrite Hw. exact IH.
Qed.

(** A text that is empty once trimmed has no sentence unit and gives no
    chunk. *)
Theorem create_chunks_blank_text text :
  strip text = [] ->
  sentences text = [] /\ create_chunks self text md = [].
Proof.
  intros H. apply blank_no_sentences in H.
  split; [exact H|]. unfold create_chunks. now rewrite H.
Qed.

End ChunkerMore.

(** *** The sample inputs again *)

(** [text_short] with a metadata mapping that has a [chunk_index]: the
    chunk has index 0 and keeps the source. *)
Lemma create_chunks_metadata_witness :
  create_chunks init text_short md_indexed !! 0%nat = Some chunk_short_indexed
  /\ metadata chunk_short_indexed !! k_chunk_index
     = Some (VInt (Z.of_nat 0))
  /\ forall k,
       k <> k_chunk_index ->
       metadata chunk_short_indexed !! k = md_indexed !! k.
Proof.
  assert (H : create_chunks init text_short md_indexed !! 0%nat
              = Some chunk_short_indexed) by (vm_compute; reflexivity).
  split; [exact H|].
  exact (create_chunks_metadata init md_indexed text_short 0
           chunk_short_indexed H).
Defined.

(** The last unit of [text_short] is in its chunk. *)
Lemma create_chunks_covers_witness :
  In (py "Bye") (sentences text_short)
  /\ exists c front back,
       In c (create_chunks init text_short ∅)
       /\ content c = front ++ py "Bye" ++ back.
Proof.
  assert (H : In (py "Bye") (sentences text_short))
    by (vm_compute; right; right; left; reflexivity).
  split; [exact H|].
  exact (create_chunks_covers init ∅ text_short (py "Bye") H).
Defined.

(** Two units of 1001 characters give two chunks. *)
Lemma create_chunks_all_long_witness :
  Forall (fun s => chunk_size init < len s) (sentences text_two_huge)
  /\ List.map content (create_chunks init text_two_huge ∅)
     = assemble None (singles (sentences text_two_huge))
  /\ length (create_chunks init text_two_huge ∅)
     = length (sentences text_two_huge).
Proof.
  assert (H : Forall (fun s => chunk_size init < len s)
                (sentences text_two_huge)).
  { assert (Hs : sentences text_two_huge
                 = [rep 1001 (py "a"); rep 1001 (py "b")])
      by (vm_compute; reflexivity).
    rewrite Hs. repeat constructor. }
  split; [exact H|].
  exact (create_chunks_all_long init ∅ text_two_huge H).
Defined.

(** Whitespace gives no chunk. *)
Lemma create_chunks_blank_text_witness :
  strip text_spaces = []
  /\ sentences text_spaces = []
  /\ create_chunks init text_spaces ∅ = [].
Proof.
  assert (H : strip text_spaces = []) by reflexivity.
  split; [exact H|].
  exact (create_chunks_blank_text init ∅ text_spaces H).
Defined.

(** X4 on two long sentence units: the buffer after the first unit is
    trimmed, and leaving the [strip()] out gives the same two chunks. *)
Lemma create_chunks_strip_identity_witness :
  sentences text_two_long = [rep 900 (py "a")] ++ [rep 900 (py "b")]
  /\ strip (current_chunk
              (chunk_loop init ∅ [rep 900 (py "a")] chunk_init))
     = current_chunk (chunk_loop init ∅ [rep 900 (py "a")] chunk_init)
  /\ create_chunks init text_two_long ∅
     = create_chunks_unstripped init text_two_long ∅.
Proof.
  assert (H : sentences text_two_long
              = [rep 900 (py "a")] ++ [rep 900 (py "b")])
    by (vm_compute; reflexivity).
  split; [exact H|].
  destruct (create_chunks_strip_identity init ∅ text_two_long) as [Hb He].
  split; [exact (Hb _ _ H)|exact He].
Defined.

(** ** More about the pipeline *)

Section PipelineMore.

Variable E : Env.
Variable self : DocumentIngestor.

Lemma world_eta w : {| trace := trace w; clock := clock w |} = w.
Proof. now destruct w. Qed.

Lemma after_nil w : after [] w = w.
Proof. unfold after. rewrite app_nil_r. apply world_eta. Qed.

Lemma service_calls_logs evs :
  forallb is_log evs = true -> service_calls evs = [].
Proof.
  induction evs as [|ev evs IH]; [reflexivity|]. simpl.
  intros H. apply andb_true_iff in H as [H1 H2].
  destruct ev; try discriminate. simpl. now apply IH.
Qed.

(** *** The extractor dispatcher *)

Lemma str_eqb_true a b : str_eqb a b = true <-> a = b.
Proof. unfold str_eqb. apply bool_decide_eq_true. Qed.

Lemma str_in_true a l : str_in a l = true <-> In a l.
Proof.
  unfold str_in. rewrite existsb_exists. split.
  - intros (x & Hx & E1). apply str_eqb_true in E1. now subst.
  - intros H. exists a. split; [exact H|]. now apply str_eqb_true.
Qed.

(** The extensions [extract_text] has a branch for are those
    [process_directory] collects. *)
Lemma handled_supported ext :
  handled ext = true <-> ext ∈ supported_extensions.
Proof.
  unfold handled, supported_extensions.
  rewrite !orb_true_iff, !str_eqb_true, !str_in_true. simpl.
  rewrite !elem_of_union, !elem_of_singleton.
  intuition congruence.
Qed.

(** What [extract_body] does, by whether the extension is handled. *)
Lemma extract_body_handled file_path ext w :
  handled ext = true -> snd (extract_body E file_path ext w) = w.
Proof.
  unfold handled, extract_body. intros H.
  destruct (str_eqb ext (py ".pdf")).
  { unfold bind, lift, ret. now destruct (pdf_extract_text E _). }
  destruct (str_eqb ext (py ".docx")); [reflexivity|].
  destruct (str_in ext [py ".png"; py ".jpg"; py ".jpeg"; py ".tiff"]);
    [reflexivity|].
  destruct (str_in ext [py ".txt"; py ".md"]); [reflexivity|].
  discriminate.
Qed.

Lemma extract_body_unhandled file_path ext w :
  handled ext = false ->
  extract_body E file_path ext w
  = (inr [],
     after [Log WARNING (UnsupportedFileType (path_suffix file_path))] w).
Proof.
  unfold handled, extract_body. intros H.
  destruct (str_eqb ext (py ".pdf")); [discriminate|].
  destruct (str_eqb ext (py ".docx")); [discriminate|].
  destruct (str_in ext [py ".png"; py ".jpg"; py ".jpeg"; py ".tiff"]);
    [discriminate|].
  destruct (str_in ext [py ".txt"; py ".md"]); [discriminate|].
  reflexivity.
Qed.

(** The dispatch of [extract_text] over the extensions
    [process_directory] globs for: [.pdf] gives what [pdf_extract_text]
    returns for the path, with [None] and the empty text as [''];
    [.docx] what [mammoth] returns; [.png], [.jpg], [.jpeg] and [.tiff]
    what [pytesseract] returns for the languages [nld+eng]; [.txt] and
    [.md] what reading the file returns; in each case what the
    extractor raises is raised, and nothing is logged.  Any other
    extension gives the empty text and the warning, without touching
    the file. *)
Theorem extract_dispatch_table file_path ext w :
  (ext ∈ supported_extensions ->
   (ext = py ".pdf"
    /\ extract_body E file_path ext w
       = (match pdf_extract_text E (path_str file_path) with
          | inl e => inl e
          | inr r => inr (or_empty r)
          end, w))
   \/ (ext = py ".docx"
       /\ extract_body E file_path ext w
          = (mammoth_extract_raw_text E file_path, w))
   \/ (In ext [py ".png"; py ".jpg"; py ".jpeg"; py ".tiff"]
       /\ extract_body E file_path ext w
          = (image_to_string E file_path (py "nld+eng"), w))
   \/ (In ext [py ".txt"; py ".md"]
       /\ extract_body E file_path ext w = (read_text E file_path, w)))
  /\ (ext ∉ supported_extensions ->
      extract_body E file_path ext w
      = (inr [],
         after [Log WARNING (UnsupportedFileType (path_suffix file_path))]
           w)).
Proof.
  split; intros H.
  - apply handled_supported in H. unfold handled in H.
    unfold extract_body.
    destruct (str_eqb ext (py ".pdf")) eqn:Hpdf.
    { left. split; [now apply str_eqb_true|].
      unfold bind, lift, ret. now destruct (pdf_extract_text E _). }
    destruct (str_eqb ext (py ".docx")) eqn:Hdocx.
    { right; left. split; [now apply str_eqb_true|reflexivity]. }
    destruct (str_in ext [py ".png"; py ".jpg"; py ".jpeg"; py ".tiff"])
      eqn:Himg.
    { right; right; left. split; [now apply str_in_true|reflexivity]. }
    destruct (str_in ext [py ".txt"; py ".md"]) eqn:Htxt.
    { right; right; right. split; [now apply str_in_true|reflexivity]. }
    discriminate.
  - apply extract_body_unhandled.
    destruct (handled ext) eqn:Hh; [|reflexivity].
    now apply handled_supported in Hh.
Qed.

(** The result of [extract_body] does not depend on the world. *)
Lemma extract_body_pure file_path ext w w' :
  fst (extract_body E file_path ext w) = fst (extract_body E file_path ext w').
Proof.
  unfold extract_body, bind, lift, ret, logger, record_event.
  repeat match goal with
         | |- context [if ?b then _ else _] => destruct b
         end; try reflexivity.
  now destruct (pdf_extract_text E _).
Qed.

(** [extract_text] run: it returns [extracted_text], and adds at most
    one event, a log entry, in which case the text is empty. *)
Lemma extract_text_run file_path w :
  exists evs,
    extract_text E file_path w = (inr (extracted_text E file_path), after evs w)
    /\ forallb is_log evs = true
    /\ (length evs <= 1)%nat
    /\ (evs <> [] -> extracted_text E file_path = []).
Proof.
  unfold extracted_text, extract_text, try_except.
  set (ext := str_lower E (path_suffix file_path)).
  pose proof (extract_body_pure file_path ext w world0) as Hp.
  destruct (handled ext) eqn:Hh.
  - pose proof (extract_body_handled file_path ext w Hh) as Hw.
    pose proof (extract_body_handled file_path ext world0 Hh) as H0.
    destruct (extract_body E file_path ext w) as [r w1].
    destruct (extract_body E file_path ext world0) as [r0 w0].
    simpl in *. subst r0 w1 w0. destruct r as [e|text]; simpl.
    + exists [Log ERROR (ErrorExtractingText file_path e)].
      repeat split; auto.
    + exists []. rewrite after_nil. repeat split; auto. congruence.
  - rewrite !(extract_body_unhandled _ _ _ Hh). simpl.
    exists [Log WARNING (UnsupportedFileType (path_suffix file_path))].
    repeat split; auto.
Qed.

(** [extract_text] never raises and never calls a service: whatever the
    extractor does, it returns a text, the same in every world, having
    added at most one log entry; and the text is empty whenever
    something was logged. *)
Theorem extract_text_safe file_path w :
  exists evs,
    extract_text E file_path w
    = (inr (extracted_text E file_path), after evs w)
    /\ service_calls evs = []
    /\ (length evs <= 1)%nat
    /\ (evs <> [] -> extracted_text E file_path = []).
Proof.
  destruct (extract_text_run file_path w) as (evs & H1 & H2 & H3 & H4).
  exists evs. repeat split; auto. now apply service_calls_logs.
Qed.

(** *** One file, case by case *)

(** [process_file], after the extraction: the empty text, the text
    without chunks, and the loop over the batches with its two ends. *)
Lemma process_file_cases file_path w :
  exists evs,
    forallb is_log evs = true
    /\ (evs <> [] -> extracted_text E file_path = [])
    /\ let text := extracted_text E file_path in
       let cs := file_chunks E self file_path in
       let w1 := after (Log INFO (Processing file_path) :: evs) w in
       process_file E self file_path w
       = if negb (truthy (strip text)) then
           (inr false, after [Log WARNING (EmptyFile file_path)] w1)
         else if negb (truthy cs) then
           (inr false, after [Log WARNING (NoChunksCreated file_path)] w1)
         else
           match run_batches E self cs w1 with
           | (inl e, w2) =>
               (inr false, after [Log ERROR (ErrorProcessing file_path e)] w2)
           | (inr _, w2) =>
               (inr true,
                after [Log INFO (SuccessfullyProcessed file_path (len cs))]
                  w2)
           end.
Proof.
  destruct (extract_text_run file_path
              (after [Log INFO (Processing file_path)] w))
    as (evs & Hrun & Hlog & _ & Hempty).
  exists evs. split; [exact Hlog|]. split; [exact Hempty|]. cbv zeta.
  rewrite after_after in Hrun. simpl app in Hrun.
  unfold process_file, try_except. unfold bind at 1.
  unfold logger at 1, record_event at 1.
  fold (after [Log INFO (Processing file_path)] w).
  unfold bind at 1.
  change (extract_text E file_path
            (after [Log INFO (Processing file_path)] w))
    with (extract_text E file_path
            {| trace := trace w ++ [Log INFO (Processing file_path)];
               clock := clock w |}) in Hrun.
  unfold after at 1. rewrite Hrun.
  destruct (negb (truthy (strip (extracted_text E file_path)))).
  { reflexivity. }
  cbv zeta. fold (file_metadata file_path (extracted_text E file_path)).
  fold (file_chunks E self file_path).
  destruct (negb (truthy (file_chunks E self file_path))).
  { reflexivity. }
  unfold run_batches, batch_body, bind, lift.
  destruct (py_range 0 (len (file_chunks E self file_path))
              (batch_size self)) as [e|starts]; [reflexivity|].
  destruct (for_each starts _ _) as [[e|[]] w2]; reflexivity.
Qed.

Lemma process_file_unitless file_path w :
  sentences (extracted_text E file_path) = [] ->
  exists evs,
    process_file E self file_path w = (inr false, after evs w)
    /\ service_calls evs = []
    /\ (last evs = Some (Log WARNING (EmptyFile file_path))
        \/ last evs = Some (Log WARNING (NoChunksCreated file_path))).
Proof.
  intros Hs.
  destruct (process_file_cases file_path w) as (evs & Hlog & _ & Hrun).
  cbv zeta in Hrun.
  assert (Hcs : file_chunks E self file_path = []).
  { unfold file_chunks. now apply chunks_nil_iff. }
  rewrite Hcs in Hrun. cbn [truthy negb] in Hrun.
  assert (Hcalls : forall ev,
             is_log ev = true ->
             service_calls
               ((Log INFO (Processing file_path) :: evs) ++ [ev]) = []).
  { intros ev Hev. apply service_calls_logs.
    rewrite forallb_app. simpl. now rewrite Hlog, Hev. }
  destruct (negb (truthy (strip (extracted_text E file_path))));
    rewrite after_after in Hrun;
    eexists; (split; [exact Hrun|]);
    (split; [now apply Hcalls|]);
    rewrite last_snoc; auto.
Qed.

(** A file whose text has no sentence unit (no text at all, whitespace,
    or periods and whitespace only) is reported as failed, with a
    warning, and nothing is sent to the embedding service or to the
    store. *)
Theorem process_file_no_units file_path w :
  sentences (extracted_text E file_path) = [] ->
  exists evs,
    process_file E self file_path w = (inr false, after evs w)
    /\ service_calls evs = []
    /\ (last evs = Some (Log WARNING (EmptyFile file_path))
        \/ last evs = Some (Log WARNING (NoChunksCreated file_path))).
Proof. apply process_file_unitless. Qed.

(** *** The run over a directory *)

(** *** The run, with the file system *)

Lemma collect_files_of directory_path exts :
  collect_files (fs_of E) directory_path exts
  = inr (flat_map (fun ext => rglob E directory_path (py "*" ++ ext)) exts).
Proof.
  induction exts as [|ext exts IH]; [reflexivity|].
  cbn [collect_files flat_map]. now rewrite IH.
Qed.

(** When the file system answers, the run is the one [process_directory]
    describes. *)
Lemma process_directory_fs_of ingestor directory_path w :
  process_directory_fs E (fs_of E) ingestor directory_path w
  = process_directory E ingestor directory_path w.
Proof.
  unfold process_directory_fs, process_directory, find_files.
  unfold bind at 1. unfold lift at 1. cbn [fs_exists fs_of].
  destruct (path_exists E directory_path); cbn [negb]; [|reflexivity].
  unfold bind at 1. unfold lift at 1. now rewrite collect_files_of.
Qed.

Lemma collect_files_raises (FS : FileSystem) directory_path e : forall exts,
  collect_files FS directory_path exts = inl e ->
  exists ext,
    In ext exts /\ fs_rglob FS directory_path (py "*" ++ ext) = inl e.
Proof.
  induction exts as [|ext exts IH]; [discriminate|].
  cbn [collect_files].
  destruct (fs_rglob FS directory_path (py "*" ++ ext)) as [e'|found] eqn:Hg.
  - intros H. injection H as ->. exists ext. split; [now left|exact Hg].
  - destruct (collect_files FS directory_path exts) as [e'|files];
      [|discriminate].
    intros H. injection H as ->.
    destruct (IH eq_refl) as (ext' & Hin & Hr).
    exists ext'. split; [now right|exact Hr].
Qed.

Lemma process_directory_fs_cases (FS : FileSystem) ingestor directory_path w :
  (forall e,
      fs_exists FS directory_path = inl e ->
      process_directory_fs E FS ingestor directory_path w = (inl e, w))
  /\ (fs_exists FS directory_path = inr false ->
      process_directory_fs E FS ingestor directory_path w
      = (inr tt, after [Log ERROR (DirectoryNotFound directory_path)] w))
  /\ (fs_exists FS directory_path = inr true ->
      forall e,
        collect_files FS directory_path (elements supported_extensions)
        = inl e ->
        process_directory_fs E FS ingestor directory_path w = (inl e, w))
  /\ (fs_exists FS directory_path = inr true ->
      forall files,
        collect_files FS directory_path (elements supported_extensions)
        = inr files ->
        exists n w',
          process_directory_fs E FS ingestor directory_path w
          = (inr tt,
             after [Log INFO (Completed (processed n) (failed n))] w')
          /\ 0 <= processed n /\ 0 <= failed n
          /\ processed n + failed n = len files
          /\ forall g, In g files -> In (Log INFO (Processing g)) (trace w')).
Proof.
  unfold process_directory_fs.
  split; [|split; [|split]].
  - intros e He. unfold bind, lift. now rewrite He.
  - intros He. unfold bind, lift. now rewrite He.
  - intros He e Hc. unfold bind, lift. now rewrite He, Hc.
  - intros He files Hc. unfold bind at 1. unfold lift at 1. rewrite He.
    cbn [negb]. unfold bind at 1. unfold lift at 1. rewrite Hc.
    unfold bind at 1. unfold logger at 1, record_event at 1.
    set (w0 := {| trace := _; clock := _ |}).
    destruct (files_loop_run E ingestor files
                {| processed := 0; failed := 0 |} w0)
      as (n & w' & Hl & _ & Hp & Hf & Hsum & Hlog).
    exists n, w'. unfold bind. rewrite Hl. simpl in *.
    repeat split; auto; lia.
Qed.

(** [process_directory] raises only what [Path.exists()] or a glob
    raises, and then before anything is logged or any file processed.
    When [exists()] returns [False] it only logs that the directory was
    not found.  When [exists()] returns [True] and every glob returns,
    it does not raise: it ends with the [Completed] entry, whose counts
    are not negative and add up to the number of files found, and every
    file found has its [Processing] entry. *)
Theorem process_directory_outcomes (FS : FileSystem) directory_path w :
  (forall e,
      fs_exists FS directory_path = inl e ->
      process_directory_fs E FS self directory_path w = (inl e, w))
  /\ (fs_exists FS directory_path = inr false ->
      process_directory_fs E FS self directory_path w
      = (inr tt, after [Log ERROR (DirectoryNotFound directory_path)] w))
  /\ (fs_exists FS directory_path = inr true ->
      forall e,
        collect_files FS directory_path (elements supported_extensions)
        = inl e ->
        process_directory_fs E FS self directory_path w = (inl e, w))
  /\ (fs_exists FS directory_path = inr true ->
      forall files,
        collect_files FS directory_path (elements supported_extensions)
        = inr files ->
        exists n w',
          process_directory_fs E FS self directory_path w
          = (inr tt,
             after [Log INFO (Completed (processed n) (failed n))] w')
          /\ 0 <= processed n /\ 0 <= failed n
          /\ processed n + failed n = len files
          /\ forall g, In g files -> In (Log INFO (Processing g)) (trace w')).
Proof. apply process_directory_fs_cases. Qed.

(** When no file found has a sentence unit in its text, the run counts
    them all as failed and sends nothing to the embedding service or to
    the store. *)
Lemma files_loop_no_units files : forall n w,
  Forall (fun g => sentences (extracted_text E g) = []) files ->
  exists w',
    files_loop E self files n w
    = (inr {| processed := processed n; failed := failed n + len files |},
       w')
    /\ service_calls (trace w') = service_calls (trace w).
Proof.
  induction files as [|g files IH]; intros n w H.
  - exists w. unfold len. simpl. rewrite Z.add_0_r. now destruct n.
  - apply Forall_cons in H as [Hg H].
    destruct (process_file_unitless g w Hg) as (evs & Hp & Hc & _).
    destruct (file_step_run E self n g w) as (ok & w1 & Hp' & Hs).
    rewrite Hp in Hp'. injection Hp' as <- <-.
    destruct (IH (count n false)
                (after (progress_events (count n false)) (after evs w)) H)
      as (w' & Hl & Hcalls).
    exists w'. cbn [files_loop]. unfold bind at 1. rewrite Hs, Hl.
    split.
    + f_equal. f_equal. unfold len. simpl. f_equal. lia.
    + rewrite Hcalls. simpl. rewrite !service_calls_app, Hc.
      unfold progress_events.
      destruct (_ =? 0); simpl; now rewrite !app_nil_r.
Qed.

Theorem process_directory_no_units directory_path w :
  path_exists E directory_path = true ->
  Forall (fun g => sentences (extracted_text E g) = [])
    (find_files E directory_path) ->
  exists w',
    process_directory E self directory_path w
    = (inr tt,
       after [Log INFO (Completed 0 (len (find_files E directory_path)))] w')
    /\ service_calls (trace (snd (process_directory E self directory_path w)))
       = service_calls (trace w).
Proof.
  intros Hex Hall.
  set (w0 := after [Log INFO (FoundFiles (len (find_files E directory_path)))]
               w).
  destruct (files_loop_no_units (find_files E directory_path)
              {| processed := 0; failed := 0 |} w0 Hall)
    as (w' & Hl & Hcalls).
  assert (Hrun : process_directory E self directory_path w
                 = (inr tt,
                    after [Log INFO
                             (Completed 0
                                (len (find_files E directory_path)))] w')).
  { unfold process_directory. rewrite Hex. cbn [negb]. cbv zeta.
    unfold bind at 1. unfold logger at 1, record_event at 1.
    fold (after [Log INFO (FoundFiles (len (find_files E directory_path)))]
            w).
    fold w0. unfold bind. rewrite Hl. reflexivity. }
  exists w'. split; [exact Hrun|]. rewrite Hrun. simpl.
  rewrite service_calls_app, Hcalls. unfold w0. simpl.
  rewrite service_calls_app. simpl. now rewrite !app_nil_r.
Qed.

(** *** The entry point *)

(** [main] starts a run only when given exactly one argument: otherwise
    it prints the usage line and exits with status 1, having logged
    nothing and called nothing.  With one argument it runs
    [process_directory] on it with the default settings; it ends as
    that run ends, and what it raises, if anything, is what
    [Path.exists()] or a glob raised, before anything was logged: no
    failure of a file or of a service escapes. *)
Theorem main_usage (FS : FileSystem) argv w :
  (length argv <> 2%nat ->
   main E FS argv w
   = (Exited (py "Usage: python ingest.py <directory_path>") 1, w))
  /\ (forall program directory_path,
         argv = [program; directory_path] ->
         exists r w',
           process_directory_fs E FS init directory_path w = (r, w')
           /\ main E FS argv w = (Returned r, w')
           /\ forall e,
                r = inl e ->
                w' = w
                /\ (fs_exists FS directory_path = inl e
                    \/ exists ext,
                         ext ∈ supported_extensions
                         /\ fs_rglob FS directory_path (py "*" ++ ext)
                            = inl e)).
Proof.
  split.
  - intros H. unfold main.
    destruct (len argv =? 2) eqn:El; [|reflexivity].
    apply Z.eqb_eq in El. unfold len in El. lia.
  - intros program directory_path ->. unfold main.
    change (len [program; directory_path] =? 2) with true.
    change ([program; directory_path] !! 1%nat) with (Some directory_path).
    cbv beta iota zeta. cbn [negb].
    destruct (process_directory_fs_cases FS init directory_path w)
      as (H1 & H2 & H3 & H4).
    destruct (process_directory_fs E FS init directory_path w)
      as [r w'] eqn:Hrun.
    exists r, w'. split; [reflexivity|]. split; [reflexivity|].
    intros e ->.
    destruct (fs_exists FS directory_path) as [e'|[|]] eqn:Hex.
    + specialize (H1 e' eq_refl). injection H1 as -> ->.
      split; [reflexivity|now left].
    + destruct (collect_files FS directory_path
                  (elements supported_extensions)) as [e'|files] eqn:Hc.
      * specialize (H3 eq_refl e' eq_refl). injection H3 as -> ->.
        split; [reflexivity|]. right.
        destruct (collect_files_raises FS directory_path e' _ Hc)
          as (ext & Hin & Hr).
        exists ext. split; [|exact Hr].
        now apply elem_of_elements, list_elem_of_In.
      * destruct (H4 eq_refl files eq_refl) as (n & w2 & H & _).
        discriminate.
    + specialize (H2 eq_refl). discriminate.
Qed.

(** *** Batches *)

Lemma firstn_min_length {A : Type} (n : nat) (l : list A) :
  firstn (Nat.min n (length l)) l = firstn n l.
Proof.
  destruct (Nat.le_gt_cases n (length l)) as [H|H].
  - now rewrite Nat.min_l.
  - rewrite Nat.min_r by lia. rewrite firstn_all.
    symmetry. apply firstn_all2. lia.
Qed.

(** A slice with bounds that are not negative. *)
Lemma slice_nonneg {A : Type} (l : list A) i j :
  0 <= i -> 0 <= j ->
  slice l i (i + j) = firstn (Z.to_nat j) (skipn (Z.to_nat i) l).
Proof.
  intros Hi Hj. unfold slice, slice_index, len.
  destruct (i <? 0) eqn:E1; [apply Z.ltb_lt in E1; lia|].
  destruct (i + j <? 0) eqn:E2; [apply Z.ltb_lt in E2; lia|].
  destruct (Z.le_gt_cases i (Z.of_nat (length l))) as [H|H].
  - replace (Z.to_nat (Z.min i (Z.of_nat (length l)))) with (Z.to_nat i)
      by lia.
    rewrite <- (firstn_min_length (Z.to_nat j)).
    f_equal. rewrite length_skipn. lia.
  - replace (Z.to_nat (Z.min i (Z.of_nat (length l)))) with (length l)
      by lia.
    rewrite skipn_all. rewrite (skipn_all2 l) by lia.
    now rewrite !firstn_nil.
Qed.

(** Consecutive pieces of [b] items put together give the list back. *)
Lemma pieces_concat {A : Type} (b : nat) : forall m (l : list A),
  (length l <= m * b)%nat ->
  concat (List.map (fun k => firstn b (skipn (k * b) l)) (seq 0 m)) = l.
Proof.
  induction m as [|m IH]; intros l Hl.
  - destruct l; [reflexivity|simpl in Hl; lia].
  - cbn [seq List.map concat]. rewrite <- seq_shift, List.map_map.
    rewrite (List.map_ext _ (fun k => firstn b (skipn (k * b) (skipn b l)))).
    + rewrite IH; [apply firstn_skipn|]. rewrite length_skipn. lia.
    + intros k. rewrite skipn_skipn. do 2 f_equal. lia.
Qed.

Lemma range_batches (cs : list Chunk) :
  0 < batch_size self ->
  exists starts,
    py_range 0 (len cs) (batch_size self) = inr starts
    /\ concat (batches_at self cs starts) = cs
    /\ Forall (fun batch => 1 <= len batch <= batch_size self)
         (batches_at self cs starts)
    /\ len starts = (len cs + batch_size self - 1) / batch_size self.
Proof.
  intros Hbs. unfold py_range.
  destruct (batch_size self =? 0) eqn:E0; [apply Z.eqb_eq in E0; lia|].
  destruct (0 <? batch_size self) eqn:E1; [|apply Z.ltb_ge in E1; lia].
  cbv zeta. eexists. split; [reflexivity|].
  set (bs := batch_size self) in *.
  set (q := (len cs - 0 + bs - 1) / bs).
  assert (Hq : len cs - 0 + bs - 1 = bs * q + (len cs - 0 + bs - 1) mod bs)
    by (apply Z.div_mod; lia).
  pose proof (Z.mod_pos_bound (len cs - 0 + bs - 1) bs Hbs) as Hr.
  pose proof (len_nonneg cs) as Hn.
  assert (Hq0 : 0 <= q) by (apply Z.div_pos; lia).
  assert (Hbatch : forall k : nat,
             slice cs (0 + Z.of_nat k * bs) (0 + Z.of_nat k * bs + bs)
             = firstn (Z.to_nat bs) (skipn (k * Z.to_nat bs) cs)).
  { intros k. rewrite slice_nonneg by lia. do 2 f_equal. lia. }
  unfold batches_at. rewrite List.map_map. fold bs.
  rewrite (List.map_ext _ _ Hbatch).
  split; [|split].
  - apply pieces_concat. unfold len in *. nia.
  - apply Forall_forall. intros batch Hin.
    apply list_elem_of_In, in_map_iff in Hin as (k & <- & Hk).
    apply in_seq in Hk. unfold len in *.
    rewrite length_firstn, length_skipn. nia.
  - unfold len. rewrite length_map, length_seq.
    rewrite Z2Nat.id by exact Hq0. unfold q, len. f_equal. lia.
Qed.

(** The [range] of [process_file] cuts the chunks into batches that,
    put together in order, give the chunks back; each batch has at
    least one chunk and at most [batch_size]. *)
Theorem batches_partition (cs : list Chunk) :
  0 < batch_size self ->
  exists starts,
    py_range 0 (len cs) (batch_size self) = inr starts
    /\ concat (batches_at self cs starts) = cs
    /\ Forall (fun batch => 1 <= len batch <= batch_size self)
         (batches_at self cs starts)
    /\ len starts = (len cs + batch_size self - 1) / batch_size self.
Proof. apply range_batches. Qed.

(** *** The loop over the batches *)

Lemma embedding_inputs_app t1 t2 :
  embedding_inputs (t1 ++ t2) = embedding_inputs t1 ++ embedding_inputs t2.
Proof. unfold embedding_inputs. apply flat_map_app. Qed.

Lemma inserted_rows_app t1 t2 :
  inserted_rows (t1 ++ t2) = inserted_rows t1 ++ inserted_rows t2.
Proof. unfold inserted_rows. apply flat_map_app. Qed.

Lemma logs_no_requests evs :
  forallb is_log evs = true ->
  embedding_inputs evs = [] /\ inserted_rows evs = [].
Proof.
  induction evs as [|ev evs IH]; [now split|]. simpl.
  intros H. apply andb_true_iff in H as [H1 H2].
  destruct ev; try discriminate. now apply IH.
Qed.

(** One batch: the request, then the insert, then the pause; an error
    of either service ends the batch there. *)
Lemma batch_body_run cs i w :
  let batch := slice cs i (i + batch_size self) in
  let texts := List.map content batch in
  batch_body E self cs i w
  = match embedding_service E w (py "text-embedding-3-small") texts with
    | inl e =>
        (inl e,
         after [EmbeddingRequest (py "text-embedding-3-small") texts;
                Log ERROR (ErrorGeneratingEmbeddings e)] w)
    | inr data =>
        let w1 :=
          after [EmbeddingRequest (py "text-embedding-3-small") texts] w in
        let pairs := combine batch (List.map item_embedding data) in
        let rows := rows_from E (clock w1) pairs in
        let w2 := tick (length pairs) w1 in
        match store_service E w2 (py "document_chunks") rows with
        | inl e =>
            (inl e,
             after [StoreInsert (py "document_chunks") rows;
                    Log ERROR (ErrorStoringChunks e)] w2)
        | inr _ =>
            (inr tt,
             after [StoreInsert (py "document_chunks") rows;
                    Log INFO (StoredChunks (len rows));
                    Sleep 100] w2)
        end
    end.
Proof.
  cbv zeta. unfold batch_body. cbv zeta. unfold bind at 1.
  rewrite generate_embeddings_run.
  destruct (embedding_service E w _ _) as [e|data]; [reflexivity|].
  unfold bind at 1. rewrite store_chunks_run. cbv zeta.
  destruct (store_service E _ _ _) as [e|r]; [reflexivity|].
  unfold time_sleep, record_event, after. simpl.
  now rewrite <- app_assoc.
Qed.

(** The trace of the loop: requests for a prefix of the batches, in
    order, each followed by the insert of the rows built from that
    batch, except possibly the last. *)
Lemma for_each_batches cs starts : forall w,
  exists evs (k j : nat),
    trace (snd (for_each starts (batch_body E self cs) w)) = trace w ++ evs
    /\ (j <= k <= length starts)%nat /\ (k <= S j)%nat
    /\ embedding_inputs evs
       = List.map (List.map content) (firstn k (batches_at self cs starts))
    /\ Forall2 (stored_from E) (inserted_rows evs)
         (firstn j (batches_at self cs starts))
    /\ (fst (for_each starts (batch_body E self cs) w) = inr tt ->
        k = length starts /\ j = length starts).
Proof.
  induction starts as [|i starts IH]; intros w.
  - exists [], 0%nat, 0%nat. simpl. rewrite app_nil_r.
    repeat split; auto.
  - change (for_each (i :: starts) (batch_body E self cs) w)
      with (match batch_body E self cs i w with
            | (inl e, w') => (inl e, w')
            | (inr _, w') => for_each starts (batch_body E self cs) w'
            end).
    rewrite batch_body_run. cbv zeta.
    set (batch := slice cs i (i + batch_size self)).
    destruct (embedding_service E w _ (List.map content batch))
      as [e|data] eqn:Hs.
    + eexists _, 1%nat, 0%nat. simpl. split; [reflexivity|].
      repeat split; try lia; try constructor; discriminate.
    + set (w1 := after [EmbeddingRequest _ _] w).
      set (pairs := combine batch (List.map item_embedding data)).
      set (rows := rows_from E (clock w1) pairs).
      assert (Hst : stored_from E rows batch)
        by (exists (clock w1), w, data; now split).
      destruct (store_service E _ _ rows) as [e|r].
      * eexists _, 1%nat, 1%nat. simpl. rewrite <- app_assoc.
        split; [reflexivity|]. simpl.
        repeat split; try lia; try discriminate.
        constructor; [exact Hst|constructor].
      * match goal with
        | |- context [for_each starts _ ?w3] =>
            destruct (IH w3) as (evs & k & j & Ht & Hkj & Hk & Hin & Hrows & Hok)
        end.
        exists ([EmbeddingRequest (py "text-embedding-3-small")
                   (List.map content batch);
                 StoreInsert (py "document_chunks") rows;
                 Log INFO (StoredChunks (len rows)); Sleep 100] ++ evs),
          (S k), (S j).
        rewrite Ht. simpl. rewrite <- !app_assoc. simpl.
        split; [reflexivity|].
        rewrite Hin. repeat split; try lia.
        -- constructor; [exact Hst|exact Hrows].
        -- apply Hok in H. lia.
        -- apply Hok in H. lia.
Qed.

(** *** One file, from the first log entry to the last *)

Lemma process_file_trace file_path w :
  let bs := file_batches E self file_path in
  exists evs (k j : nat),
    trace (snd (process_file E self file_path w)) = trace w ++ evs
    /\ (j <= k <= length bs)%nat /\ (k <= S j)%nat
    /\ embedding_inputs evs = List.map (List.map content) (firstn k bs)
    /\ Forall2 (stored_from E) (inserted_rows evs) (firstn j bs)
    /\ (fst (process_file E self file_path w) = inr true ->
        k = length bs /\ j = length bs
        /\ file_chunks E self file_path <> []).
Proof.
  cbv zeta.
  destruct (process_file_cases file_path w) as (evs0 & Hlog & _ & Hrun).
  cbv zeta in Hrun. rewrite Hrun. clear Hrun.
  set (w1 := after (Log INFO (Processing file_path) :: evs0) w).
  assert (Hquiet : forall ev,
             is_log ev = true ->
             exists evs (k j : nat),
               trace (after [ev] w1) = trace w ++ evs
               /\ (j <= k <= length (file_batches E self file_path))%nat
               /\ (k <= S j)%nat
               /\ embedding_inputs evs
                  = List.map (List.map content)
                      (firstn k (file_batches E self file_path))
               /\ Forall2 (stored_from E) (inserted_rows evs)
                    (firstn j (file_batches E self file_path))).
  { intros ev Hev.
    exists ((Log INFO (Processing file_path) :: evs0) ++ [ev]), 0%nat, 0%nat.
    assert (Hl : forallb is_log
                   ((Log INFO (Processing file_path) :: evs0) ++ [ev])
                 = true)
      by (rewrite forallb_app; simpl; now rewrite Hlog, Hev).
    destruct (logs_no_requests _ Hl) as [H1 H2]. rewrite H1, H2.
    unfold w1. simpl. rewrite <- app_assoc.
    repeat split; try lia. constructor. }
  destruct (negb (truthy (strip (extracted_text E file_path)))).
  { destruct (Hquiet (Log WARNING (EmptyFile file_path)) eq_refl)
      as (evs & k & j & H1 & H2 & H3 & H4 & H5).
    exists evs, k, j. repeat split; auto; try lia; discriminate. }
  destruct (truthy (file_chunks E self file_path)) eqn:Hcs; cbn [negb].
  2:{ destruct (Hquiet (Log WARNING (NoChunksCreated file_path)) eq_refl)
        as (evs & k & j & H1 & H2 & H3 & H4 & H5).
      exists evs, k, j. repeat split; auto; try lia; discriminate. }
  apply truthy_true in Hcs.
  unfold run_batches, bind, lift. unfold file_batches in *.
  destruct (py_range 0 (len (file_chunks E self file_path))
              (batch_size self)) as [e|starts].
  { destruct (Hquiet (Log ERROR (ErrorProcessing file_path e)) eq_refl)
      as (evs & k & j & H1 & H2 & H3 & H4 & H5).
    exists evs, k, j. repeat split; auto; try lia; discriminate. }
  destruct (for_each_batches (file_chunks E self file_path) starts w1)
    as (evs & k & j & Ht & Hkj & Hk & Hin & Hrows & Hok).
  assert (Hfinal : forall ev w2,
             is_log ev = true -> trace w2 = trace w1 ++ evs ->
             trace (after [ev] w2)
             = trace w ++ (Log INFO (Processing file_path) :: evs0)
                 ++ evs ++ [ev]
             /\ embedding_inputs
                  ((Log INFO (Processing file_path) :: evs0) ++ evs ++ [ev])
                = embedding_inputs evs
             /\ inserted_rows
                  ((Log INFO (Processing file_path) :: evs0) ++ evs ++ [ev])
                = inserted_rows evs).
  { intros ev w2 Hev Hw2.
    assert (Hl0 : forallb is_log (Log INFO (Processing file_path) :: evs0)
                  = true) by (simpl; exact Hlog).
    assert (Hl1 : forallb is_log [ev] = true) by (simpl; now rewrite Hev).
    destruct (logs_no_requests _ Hl0) as [A1 A2].
    destruct (logs_no_requests _ Hl1) as [B1 B2].
    rewrite !embedding_inputs_app, !inserted_rows_app, A1, A2, B1, B2.
    rewrite !app_nil_r. simpl. unfold w1 in Hw2. simpl in Hw2.
    rewrite Hw2, <- !app_assoc. now repeat split. }
  assert (Hlenb : length (batches_at self (file_chunks E self file_path)
                            starts) = length starts)
    by (unfold batches_at; apply length_map).
  destruct (for_each starts _ w1) as [[e|[]] w2]; simpl in Ht, Hok.
  - destruct (Hfinal (Log ERROR (ErrorProcessing file_path e)) w2
                eq_refl Ht) as (F1 & F2 & F3).
    eexists _, k, j. split; [exact F1|]. rewrite F2, F3, Hlenb.
    repeat split; auto; try lia; discriminate.
  - destruct (Hfinal (Log INFO (SuccessfullyProcessed file_path
                                  (len (file_chunks E self file_path))))
                w2 eq_refl Ht) as (F1 & F2 & F3).
    destruct (Hok eq_refl) as [-> ->].
    eexists _, (length starts), (length starts).
    split; [exact F1|]. rewrite F2, F3, Hlenb.
    repeat split; auto; lia.
Qed.

(** *** What follows a request *)

Lemma rows_sent_app t1 t2 :
  rows_sent (t1 ++ t2) = (rows_sent t1 + rows_sent t2)%nat.
Proof.
  unfold rows_sent. now rewrite inserted_rows_app, concat_app, length_app.
Qed.

Lemma rows_sent_logs evs : forallb is_log evs = true -> rows_sent evs = 0%nat.
Proof.
  intros H. unfold rows_sent.
  now rewrite (proj2 (logs_no_requests _ H)).
Qed.

Lemma world_after_nil w : world_after w [] = w.
Proof.
  unfold world_after, rows_sent. simpl.
  rewrite app_nil_r, Nat.add_0_r. apply world_eta.
Qed.

(** An event that is no log entry, found in a trace that begins with
    log entries, comes after them. *)
Lemma split_after_logs (ev : Event) : forall l1 l2 pre post,
  forallb is_log l1 = true -> is_log ev = false ->
  l1 ++ l2 = pre ++ ev :: post ->
  exists pre', pre = l1 ++ pre' /\ l2 = pre' ++ ev :: post.
Proof.
  induction l1 as [|a l1 IH]; intros l2 pre post Hl Hev H.
  - now exists pre.
  - simpl in Hl. apply andb_true_iff in Hl as [Ha Hl].
    destruct pre as [|p pre]; simpl in H; injection H as -> H.
    + congruence.
    + destruct (IH _ _ _ Hl Hev H) as (pre' & -> & H2).
      now exists pre'.
Qed.

(** An event found in a trace that ends with another one comes before
    it. *)
Lemma split_before_last (ev final : Event) l pre post :
  ev <> final ->
  l ++ [final] = pre ++ ev :: post ->
  exists post', post = post' ++ [final] /\ l = pre ++ ev :: post'.
Proof.
  intros Hne H.
  destruct post as [|y post] using rev_ind.
  - change (pre ++ [ev]) with (pre ++ [ev]) in H.
    apply app_inj_tail in H as [_ H]. congruence.
  - clear IHpost.
    change (pre ++ ev :: post ++ [y]) with (pre ++ (ev :: post) ++ [y]) in H.
    rewrite app_assoc in H. apply app_inj_tail in H as [-> <-].
    now exists post.
Qed.

(** In the loop over the batches, a request is the request for the
    batch at its position, and what follows it is decided by the answer
    of the service to that request. *)
Lemma for_each_answers cs starts : forall w pre model texts post,
  trace (snd (for_each starts (batch_body E self cs) w))
  = trace w ++ pre ++ EmbeddingRequest model texts :: post ->
  exists batch,
    batches_at self cs starts !! length (embedding_inputs pre) = Some batch
    /\ model = py "text-embedding-3-small"
    /\ texts = List.map content batch
    /\ match embedding_service E (world_after w pre) model texts with
       | inl e =>
           post = [Log ERROR (ErrorGeneratingEmbeddings e)]
           /\ fst (for_each starts (batch_body E self cs) w) = inl e
       | inr data =>
           exists rest,
             post
             = StoreInsert (py "document_chunks")
                 (rows_from E (clock (world_after w pre))
                    (combine batch (List.map item_embedding data)))
               :: rest
       end.
Proof.
  induction starts as [|i starts IH]; intros w pre model texts post H.
  - simpl in H. rewrite <- (app_nil_r (trace w)) in H at 1.
    apply app_inv_head in H. destruct pre; discriminate.
  - revert H.
    change (for_each (i :: starts) (batch_body E self cs) w)
      with (match batch_body E self cs i w with
            | (inl e, w') => (inl e, w')
            | (inr _, w') => for_each starts (batch_body E self cs) w'
            end).
    rewrite batch_body_run. cbv zeta.
    set (batch := slice cs i (i + batch_size self)).
    destruct (embedding_service E w _ (List.map content batch))
      as [e|data] eqn:Hs.
    + simpl. intros H. apply app_inv_head in H.
      destruct pre as [|p1 pre]; simpl in H.
      * injection H as <- <- <-. exists batch. rewrite world_after_nil, Hs.
        now repeat split.
      * injection H as _ H. destruct pre as [|p2 pre]; [discriminate|].
        injection H as _ H. destruct pre; discriminate.
    + set (w1 := after [EmbeddingRequest _ _] w).
      set (pairs := combine batch (List.map item_embedding data)).
      set (rows := rows_from E (clock w1) pairs).
      destruct (store_service E _ _ rows) as [e|r].
      * simpl. rewrite <- app_assoc. intros H. apply app_inv_head in H.
        destruct pre as [|p1 pre]; simpl in H.
        -- injection H as <- <- <-. exists batch.
           rewrite world_after_nil, Hs. repeat split; auto.
           eexists. unfold rows_sent. simpl. rewrite ?Nat.add_0_r.
           reflexivity.
        -- injection H as _ H. destruct pre as [|p2 pre]; [discriminate|].
           injection H as _ H. destruct pre as [|p3 pre]; [discriminate|].
           injection H as _ H. destruct pre; discriminate.
      * set (w3 := after _ (tick (length pairs) w1)).
        destruct (for_each_batches cs starts w3) as (evs & _ & _ & Ht & _).
        intros H. rewrite Ht in H. unfold w3, w1 in H. simpl in H.
        rewrite <- !app_assoc in H. apply app_inv_head in H. simpl in H.
        destruct pre as [|p1 pre]; simpl in H.
        -- injection H as <- <- <-. exists batch.
           rewrite world_after_nil, Hs. repeat split; auto.
           eexists. unfold rows_sent. simpl. rewrite ?Nat.add_0_r.
           reflexivity.
        -- injection H as <- H. destruct pre as [|p2 pre]; [discriminate|].
           injection H as <- H. destruct pre as [|p3 pre]; [discriminate|].
           injection H as <- H. destruct pre as [|p4 pre]; [discriminate|].
           injection H as <- H.
           destruct (IH w3 pre model texts post) as (b & Hb & Hm & Htx & Hans).
           { rewrite Ht, H. reflexivity. }
           exists b. split; [exact Hb|]. split; [exact Hm|].
           split; [exact Htx|].
           assert (Hw : world_after w3 pre
                        = world_after w
                            (EmbeddingRequest (py "text-embedding-3-small")
                               (List.map content batch)
                             :: StoreInsert (py "document_chunks") rows
                             :: Log INFO (StoredChunks (len rows))
                             :: Sleep 100 :: pre)).
           { unfold world_after, w3, w1, rows_sent. simpl.
             rewrite <- !app_assoc. simpl. rewrite length_app.
             unfold rows. rewrite rows_from_length. f_equal. lia. }
           rewrite <- Hw. exact Hans.
Qed.

(** The same for a whole file: the log entries before and after the
    loop hold no request. *)
Lemma process_file_answers file_path w pre model texts post :
  trace (snd (process_file E self file_path w))
  = trace w ++ pre ++ EmbeddingRequest model texts :: post ->
  exists batch,
    file_batches E self file_path !! length (embedding_inputs pre)
    = Some batch
    /\ model = py "text-embedding-3-small"
    /\ texts = List.map content batch
    /\ match embedding_service E (world_after w pre) model texts with
       | inl e =>
           post = [Log ERROR (ErrorGeneratingEmbeddings e);
                   Log ERROR (ErrorProcessing file_path e)]
           /\ fst (process_file E self file_path w) = inr false
       | inr data =>
           exists rest,
             post
             = StoreInsert (py "document_chunks")
                 (rows_from E (clock (world_after w pre))
                    (combine batch (List.map item_embedding data)))
               :: rest
       end.
Proof.
  destruct (process_file_cases file_path w) as (evs0 & Hlog & _ & Hrun).
  cbv zeta in Hrun. rewrite Hrun. clear Hrun.
  set (logs := Log INFO (Processing file_path) :: evs0).
  assert (Hlogs : forallb is_log logs = true) by exact Hlog.
  set (w1 := after logs w).
  assert (Hquiet : forall ev,
             is_log ev = true ->
             trace (after [ev] w1)
             <> trace w ++ pre ++ EmbeddingRequest model texts :: post).
  { intros ev Hev H. unfold w1 in H. simpl in H.
    rewrite <- app_assoc in H. apply app_inv_head in H.
    rewrite <- (app_nil_r (logs ++ [ev])) in H.
    apply split_after_logs in H as (pre' & _ & H);
      [destruct pre'; discriminate| |reflexivity].
    rewrite forallb_app, Hlogs. simpl. now rewrite Hev. }
  destruct (negb (truthy (strip (extracted_text E file_path)))).
  { intros H. now apply Hquiet in H. }
  destruct (negb (truthy (file_chunks E self file_path))).
  { intros H. now apply Hquiet in H. }
  unfold run_batches, bind, lift, file_batches.
  destruct (py_range 0 (len (file_chunks E self file_path))
              (batch_size self)) as [e|starts].
  { intros H. now apply Hquiet in H. }
  destruct (for_each_batches (file_chunks E self file_path) starts w1)
    as (evs & _ & _ & Ht & _).
  pose proof (for_each_answers (file_chunks E self file_path) starts w1)
    as Hans.
  assert (Hsplit : forall final w2,
             is_log final = true -> trace w2 = trace w1 ++ evs ->
             trace (after [final] w2)
             = trace w ++ pre ++ EmbeddingRequest model texts :: post ->
             exists pre' post',
               pre = logs ++ pre' /\ post = post' ++ [final]
               /\ evs = pre' ++ EmbeddingRequest model texts :: post').
  { intros final w2 Hfin Hw2 H. simpl in H. rewrite Hw2 in H.
    unfold w1 in H. simpl in H. rewrite <- !app_assoc in H.
    apply app_inv_head in H.
    apply split_after_logs in H as (pre' & -> & H);
      [|exact Hlogs|reflexivity].
    apply split_before_last in H as (post' & -> & H);
      [|intros Heq; subst final; discriminate].
    now exists pre', post'. }
  assert (Hworld : forall pre',
             world_after w1 pre' = world_after w (logs ++ pre')).
  { intros pre'. unfold world_after, w1, after. cbn [trace clock].
    rewrite rows_sent_app, (rows_sent_logs _ Hlogs), <- app_assoc.
    reflexivity. }
  assert (Hinputs : forall pre',
             embedding_inputs (logs ++ pre') = embedding_inputs pre').
  { intros pre'. rewrite embedding_inputs_app.
    now rewrite (proj1 (logs_no_requests _ Hlogs)). }
  destruct (for_each starts _ w1) as [[e|[]] w2]; cbn [snd] in Ht;
    intros H.
  - destruct (Hsplit (Log ERROR (ErrorProcessing file_path e)) w2
                eq_refl Ht H) as (pre' & post' & -> & -> & Hevs).
    destruct (Hans pre' model texts post') as (b & Hb & Hm & Htx & Hafter).
    { simpl. now rewrite Ht, Hevs. }
    exists b. rewrite Hinputs, <- Hworld.
    split; [exact Hb|]. split; [exact Hm|]. split; [exact Htx|].
    destruct (embedding_service E _ model texts) as [e'|data].
    + destruct Hafter as [-> He]. simpl in He. injection He as ->.
      now split.
    + destruct Hafter as (rest & ->). now eexists.
  - destruct (Hsplit (Log INFO (SuccessfullyProcessed file_path
                                  (len (file_chunks E self file_path))))
                w2 eq_refl Ht H) as (pre' & post' & -> & -> & Hevs).
    destruct (Hans pre' model texts post') as (b & Hb & Hm & Htx & Hafter).
    { simpl. now rewrite Ht, Hevs. }
    exists b. rewrite Hinputs, <- Hworld.
    split; [exact Hb|]. split; [exact Hm|]. split; [exact Htx|].
    destruct (embedding_service E _ model texts) as [e'|data].
    + destruct Hafter as [_ He]. discriminate.
    + destruct Hafter as (rest & ->). now eexists.
Qed.

(** Whatever the services answer, [process_file] returns a boolean
    without raising, and what it sends follows the batches of the
    file.  The embedding requests are those of the first batches, in
    order, none skipped or sent twice, and all of them when it returns
    [True].  Every request is for the batch at its position, and what
    comes next in the trace is decided by the answer of the service to
    that very request: when the service raises, the two error entries,
    and the file is reported as failed; when it answers, the insert of
    the rows built from the batch and the vectors of that answer. *)
Theorem process_file_order file_path w :
  let bs := file_batches E self file_path in
  (exists (ok : bool) evs (k : nat),
      fst (process_file E self file_path w) = inr ok
      /\ trace (snd (process_file E self file_path w)) = trace w ++ evs
      /\ (k <= length bs)%nat
      /\ embedding_inputs evs = List.map (List.map content) (firstn k bs)
      /\ (length (inserted_rows evs) <= k <= S (length (inserted_rows evs)))%nat
      /\ (ok = true -> k = length bs /\ length (inserted_rows evs) = length bs))
  /\ (forall pre model texts post,
         trace (snd (process_file E self file_path w))
         = trace w ++ pre ++ EmbeddingRequest model texts :: post ->
         exists batch,
           bs !! length (embedding_inputs pre) = Some batch
           /\ model = py "text-embedding-3-small"
           /\ texts = List.map content batch
           /\ match embedding_service E (world_after w pre) model texts with
              | inl e =>
                  post = [Log ERROR (ErrorGeneratingEmbeddings e);
                          Log ERROR (ErrorProcessing file_path e)]
                  /\ fst (process_file E self file_path w) = inr false
              | inr data =>
                  exists rest,
                    post
                    = StoreInsert (py "document_chunks")
                        (rows_from E (clock (world_after w pre))
                           (combine batch (List.map item_embedding data)))
                      :: rest
              end).
Proof.
  cbv zeta. split.
  - destruct (total_process_file E self file_path w) as [ok Hok].
    destruct (process_file_trace file_path w)
      as (evs & k & j & H1 & H2 & H3 & H4 & H5 & H6).
    cbv zeta in H5. apply Forall2_length in H5.
    rewrite length_firstn in H5.
    exists ok, evs, k.
    split; [exact Hok|]. split; [exact H1|]. split; [lia|].
    split; [exact H4|]. split; [lia|].
    intros ->. destruct (H6 Hok) as (Hk & Hj & _). lia.
  - apply process_file_answers.
Qed.

(** *** What gets stored *)

Lemma rows_from_fields batch : forall t (vs : list vector),
  length vs = length batch ->
  List.map row_content (rows_from E t (combine batch vs))
  = List.map content batch
  /\ List.map row_chunk_index (rows_from E t (combine batch vs))
     = List.map (fun c => dict_get (metadata c) k_chunk_index) batch
  /\ List.map row_metadata (rows_from E t (combine batch vs))
     = List.map (fun c => delete k_chunk_index (metadata c)) batch.
Proof.
  induction batch as [|c batch IH]; intros t vs Hlen; [now repeat split|].
  destruct vs as [|v vs]; [discriminate|]. simpl in Hlen.
  destruct (IH (S t) vs ltac:(lia)) as (H1 & H2 & H3).
  simpl. now rewrite H1, H2, H3.
Qed.

Lemma map_concat_Forall2 {A B C : Type} (f : A -> C) (g : B -> C)
    (xs : list (list A)) (ys : list (list B)) :
  Forall2 (fun x y => List.map f x = List.map g y) xs ys ->
  List.map f (concat xs) = List.map g (concat ys).
Proof.
  induction 1 as [|x y xs ys H _ IH]; [reflexivity|].
  simpl. now rewrite !map_app, H, IH.
Qed.

Lemma map_by_index {A B : Type} (f : A -> B) (g : nat -> B) (l : list A) :
  forall start,
    (forall (i : nat) x, l !! i = Some x -> f x = g (start + i)%nat) ->
    List.map f l = List.map g (seq start (length l)).
Proof.
  induction l as [|x l IH]; intros start H; [reflexivity|].
  simpl. f_equal.
  - rewrite (H 0%nat x eq_refl). f_equal. lia.
  - apply IH. intros i y Hy. rewrite (H (S i) y Hy). f_equal. lia.
Qed.

Lemma file_metadata_no_index file_path text :
  file_metadata file_path text !! k_chunk_index = None.
Proof.
  unfold file_metadata.
  rewrite !lookup_insert_ne by (vm_compute; discriminate).
  apply lookup_empty.
Qed.

(** When [process_file] returns [True] and the embedding service has
    answered with one item per text, every chunk of the file has been
    sent for embedding and stored exactly once, in order: the texts of
    the requests, put together, are the contents of the chunks; so are
    the contents of the rows inserted; the rows carry the chunk indices
    0, 1, 2, ... and each the metadata of the file, without
    [chunk_index]. *)
Theorem process_file_stores_all file_path w :
  0 < batch_size self ->
  one_item_per_text E ->
  fst (process_file E self file_path w) = inr true ->
  let text := extracted_text E file_path in
  let cs := file_chunks E self file_path in
  exists evs,
    trace (snd (process_file E self file_path w)) = trace w ++ evs
    /\ cs <> []
    /\ concat (embedding_inputs evs) = List.map content cs
    /\ List.map row_content (concat (inserted_rows evs))
       = List.map content cs
    /\ List.map row_chunk_index (concat (inserted_rows evs))
       = List.map (fun i => VInt (Z.of_nat i)) (seq 0 (length cs))
    /\ Forall (fun r => row_metadata r = file_metadata file_path text)
         (concat (inserted_rows evs)).
Proof.
  intros Hbs Hone Htrue. cbv zeta.
  destruct (process_file_trace file_path w)
    as (evs & k & j & Ht & _ & _ & Hin & Hrows & Hok).
  destruct (Hok Htrue) as (-> & -> & Hcs). rewrite firstn_all in Hin, Hrows.
  destruct (range_batches (file_chunks E self file_path) Hbs)
    as (starts & Hrange & Hcat & _ & _).
  unfold file_batches in Hin, Hrows. rewrite Hrange in Hin, Hrows.
  set (cs := file_chunks E self file_path) in *.
  assert (Hfields :
            Forall2 (fun rows batch =>
                       List.map row_content rows = List.map content batch
                       /\ List.map row_chunk_index rows
                          = List.map (fun c => dict_get (metadata c)
                                                 k_chunk_index) batch
                       /\ List.map row_metadata rows
                          = List.map (fun c => delete k_chunk_index
                                                 (metadata c)) batch)
              (inserted_rows evs) (batches_at self cs starts)).
  { eapply Forall2_impl; [exact Hrows|].
    intros rows batch (t & w' & data & Hs & ->).
    apply rows_from_fields. rewrite length_map.
    rewrite (Hone _ _ _ _ Hs). apply length_map. }
  destruct (create_chunks_groups self
              (file_metadata file_path (extracted_text E file_path))
              (extracted_text E file_path))
    as (gs & _ & _ & _ & _ & _ & Hidx).
  fold (file_chunks E self file_path) in Hidx. fold cs in Hidx.
  exists evs. split; [exact Ht|]. split; [exact Hcs|].
  split; [|split; [|split]].
  - replace (List.map content cs)
      with (List.map content (concat (batches_at self cs starts)))
      by now rewrite Hcat.
    rewrite Hin. clear.
    induction (batches_at self cs starts) as [|b bs IH]; [reflexivity|].
    simpl. now rewrite map_app, IH.
  - replace (List.map content cs)
      with (List.map content (concat (batches_at self cs starts)))
      by now rewrite Hcat.
    apply map_concat_Forall2.
    eapply Forall2_impl; [exact Hfields|]. now intros ? ? (H & _).
  - rewrite (map_concat_Forall2 row_chunk_index
               (fun c => dict_get (metadata c) k_chunk_index)
               _ (batches_at self cs starts)).
    + rewrite Hcat. apply map_by_index. intros i c Hi.
      rewrite (Hidx i c Hi). unfold dict_get.
      now rewrite lookup_insert_eq.
    + eapply Forall2_impl; [exact Hfields|]. now intros ? ? (_ & H & _).
  - apply Forall_forall. intros r Hr.
    assert (Hm : In (row_metadata r)
                   (List.map (fun c => delete k_chunk_index (metadata c))
                      (concat (batches_at self cs starts)))).
    { rewrite <- (map_concat_Forall2 row_metadata
                    (fun c => delete k_chunk_index (metadata c))
                    (inserted_rows evs)).
      - apply in_map. now apply list_elem_of_In.
      - eapply Forall2_impl; [exact Hfields|]. now intros ? ? (_ & _ & H). }
    rewrite Hcat in Hm. apply in_map_iff in Hm as (c & <- & Hc).
    apply list_elem_of_In, list_elem_of_lookup in Hc as [i Hi].
    rewrite (Hidx i c Hi), delete_insert_eq.
    apply delete_id, file_metadata_no_index.
Qed.

(** When the embedding service raises at every call, no file is stored
    and none is reported as processed: for each file at most one
    request is attempted, no insert is made, and [process_file] returns
    [False]. *)
Theorem process_file_service_down file_path w :
  0 < batch_size self ->
  (forall w' model input,
      exists e, embedding_service E w' model input = inl e) ->
  exists evs,
    fst (process_file E self file_path w) = inr false
    /\ trace (snd (process_file E self file_path w)) = trace w ++ evs
    /\ inserted_rows evs = []
    /\ (length (embedding_inputs evs) <= 1)%nat.
Proof.
  intros Hbs Hdown.
  destruct (total_process_file E self file_path w) as [ok Hok].
  destruct (process_file_trace file_path w)
    as (evs & k & j & Ht & Hkj & Hk & Hin & Hrows & Htrue).
  assert (Hnone : inserted_rows evs = []).
  { destruct (inserted_rows evs) as [|rows l]; [reflexivity|].
    inversion Hrows as [|? batch ? ? (t & w' & data & Hs & _) _]; subst.
    destruct (Hdown w' (py "text-embedding-3-small")
                (List.map content batch)) as [e He].
    congruence. }
  rewrite Hnone in Hrows. apply Forall2_nil_inv_l in Hrows.
  assert (Hj : j = 0%nat \/ file_batches E self file_path = []).
  { destruct j; [now left|right].
    destruct (file_batches E self file_path); [reflexivity|discriminate]. }
  assert (Hfalse : ok = false).
  { destruct ok; [|reflexivity].
    destruct (Htrue Hok) as (Hk' & Hj' & Hcs).
    destruct (range_batches (file_chunks E self file_path) Hbs)
      as (starts & Hrange & Hcat & _).
    unfold file_batches in *. rewrite Hrange in *.
    assert (Hb : batches_at self (file_chunks E self file_path) starts = []).
    { destruct Hj as [Hj|Hj]; [|exact Hj].
      rewrite Hj in Hj'. symmetry in Hj'. now apply length_zero_iff_nil. }
    rewrite Hb in Hcat. simpl in Hcat. congruence. }
  subst ok. exists evs.
  split; [exact Hok|]. split; [exact Ht|]. split; [exact Hnone|].
  rewrite Hin, length_map, length_firstn.
  destruct Hj as [-> | ->]; simpl; lia.
Qed.

(** With both services answering, the loop over the batches ends
    normally. *)
Lemma for_each_succeeds cs starts : forall w,
  (forall w' model input,
      exists data, embedding_service E w' model input = inr data) ->
  (forall w' table rows,
      exists stored, store_service E w' table rows = inr stored) ->
  fst (for_each starts (batch_body E self cs) w) = inr tt.
Proof.
  intros w Hemb Hstore. revert w.
  induction starts as [|i starts IH]; intros w; [reflexivity|].
  change (for_each (i :: starts) (batch_body E self cs) w)
    with (match batch_body E self cs i w with
          | (inl e, w') => (inl e, w')
          | (inr _, w') => for_each starts (batch_body E self cs) w'
          end).
  rewrite batch_body_run. cbv zeta.
  destruct (Hemb w (py "text-embedding-3-small")
              (List.map content (slice cs i (i + batch_size self))))
    as [data ->].
  match goal with
  | |- context [store_service E ?w2 ?t ?rows] =>
      destruct (Hstore w2 t rows) as [stored ->]
  end.
  apply IH.
Qed.

(** When the embedding service and the store answer every call, a file
    whose text has at least one sentence unit is processed to the end:
    [process_file] returns [True]. *)
Theorem process_file_succeeds file_path w :
  0 < batch_size self ->
  (forall w' model input,
      exists data, embedding_service E w' model input = inr data) ->
  (forall w' table rows,
      exists stored, store_service E w' table rows = inr stored) ->
  sentences (extracted_text E file_path) <> [] ->
  fst (process_file E self file_path w) = inr true.
Proof.
  intros Hbs Hemb Hstore Hs.
  destruct (process_file_cases file_path w) as (evs & _ & _ & Hrun).
  cbv zeta in Hrun. rewrite Hrun. clear Hrun.
  destruct (truthy (strip (extracted_text E file_path))) eqn:Ht.
  2:{ apply truthy_false, blank_no_sentences in Ht. congruence. }
  destruct (truthy (file_chunks E self file_path)) eqn:Hc.
  2:{ apply truthy_false in Hc. unfold file_chunks in Hc.
      apply chunks_nil_iff in Hc. congruence. }
  cbn [negb]. unfold run_batches, bind, lift.
  destruct (range_batches (file_chunks E self file_path) Hbs)
    as (starts & -> & _).
  match goal with
  | |- context [for_each starts ?b ?w1] =>
      pose proof (for_each_succeeds (file_chunks E self file_path)
                    starts w1 Hemb Hstore) as Hf;
      destruct (for_each starts b w1) as [[e|[]] w2]
  end; simpl in Hf; [discriminate|reflexivity].
Qed.

End PipelineMore.

(** *** The sample environments again *)

(** [.pdf] goes to its extractor, which raises for the broken PDF;
    [.exe] goes to the warning. *)
Lemma extract_dispatch_table_witness :
  (py ".pdf" ∈ supported_extensions)
  /\ (py ".exe" ∉ supported_extensions)
  /\ extract_body sample_env broken_pdf (py ".pdf") world0
     = (inl pdf_syntax_error, world0)
  /\ extract_body sample_env broken_pdf (py ".exe") world0
     = (inr [],
        after [Log WARNING (UnsupportedFileType (path_suffix broken_pdf))]
          world0).
Proof.
  assert (H1 : py ".pdf" ∈ supported_extensions)
    by (apply handled_supported; vm_compute; reflexivity).
  assert (H2 : py ".exe" ∉ supported_extensions).
  { intros H. apply handled_supported in H. vm_compute in H. discriminate. }
  split; [exact H1|]. split; [exact H2|]. split.
  - destruct (proj1 (extract_dispatch_table sample_env broken_pdf
                       (py ".pdf") world0) H1)
      as [[_ H]|[[H _]|[[H _]|[H _]]]].
    + rewrite H. reflexivity.
    + vm_compute in H. discriminate.
    + vm_compute in H. intuition discriminate.
    + vm_compute in H. intuition discriminate.
  - exact (proj2 (extract_dispatch_table sample_env broken_pdf
                    (py ".exe") world0) H2).
Defined.

(** The broken PDF has no text, hence no sentence unit. *)
Lemma process_file_no_units_witness :
  sentences (extracted_text sample_env broken_pdf) = []
  /\ exists evs,
       process_file sample_env init broken_pdf world0
       = (inr false, after evs world0)
       /\ service_calls evs = []
       /\ (last evs = Some (Log WARNING (EmptyFile broken_pdf))
           \/ last evs = Some (Log WARNING (NoChunksCreated broken_pdf))).
Proof.
  assert (H : sentences (extracted_text sample_env broken_pdf) = [])
    by (vm_compute; reflexivity).
  split; [exact H|].
  exact (process_file_no_units sample_env init broken_pdf world0 H).
Defined.

(** A path that is too long; no directory; a directory that cannot be
    read; and the directory [docs]. *)
Lemma process_directory_outcomes_witness :
  process_directory_fs sample_env fs_too_long init (py "docs") world0
  = (inl file_name_too_long, world0)
  /\ process_directory_fs sample_env (fs_of env_nodir) init (py "docs") world0
     = (inr tt, after [Log ERROR (DirectoryNotFound (py "docs"))] world0)
  /\ process_directory_fs sample_env fs_unreadable init (py "docs") world0
     = (inl permission_denied, world0)
  /\ exists n w',
       process_directory_fs sample_env (fs_of sample_env) init (py "docs")
         world0
       = (inr tt, after [Log INFO (Completed (processed n) (failed n))] w')
       /\ 0 <= processed n /\ 0 <= failed n
       /\ processed n + failed n = len [broken_pdf; report_pdf]
       /\ forall g,
            In g [broken_pdf; report_pdf] ->
            In (Log INFO (Processing g)) (trace w').
Proof.
  assert (H3 : collect_files fs_unreadable (py "docs")
                 (elements supported_extensions) = inl permission_denied)
    by (vm_compute; reflexivity).
  assert (H4 : collect_files (fs_of sample_env) (py "docs")
                 (elements supported_extensions)
               = inr [broken_pdf; report_pdf])
    by (vm_compute; reflexivity).
  split; [|split; [|split]].
  - destruct (process_directory_outcomes sample_env init fs_too_long
                (py "docs") world0) as (H & _).
    exact (H file_name_too_long eq_refl).
  - destruct (process_directory_outcomes sample_env init (fs_of env_nodir)
                (py "docs") world0) as (_ & H & _).
    exact (H eq_refl).
  - destruct (process_directory_outcomes sample_env init fs_unreadable
                (py "docs") world0) as (_ & _ & H & _).
    exact (H eq_refl permission_denied H3).
  - destruct (process_directory_outcomes sample_env init (fs_of sample_env)
                (py "docs") world0) as (_ & _ & _ & H).
    exact (H eq_refl [broken_pdf; report_pdf] H4).
Defined.

(** Two PDFs of periods and whitespace: both fail, nothing is sent. *)
Lemma process_directory_no_units_witness :
  path_exists env_dots (py "docs") = true
  /\ Forall (fun g => sentences (extracted_text env_dots g) = [])
       (find_files env_dots (py "docs"))
  /\ exists w',
       process_directory env_dots init (py "docs") world0
       = (inr tt,
          after [Log INFO (Completed 0
                             (len (find_files env_dots (py "docs"))))] w')
       /\ service_calls
            (trace (snd (process_directory env_dots init (py "docs")
                           world0)))
          = service_calls (trace world0).
Proof.
  assert (H1 : path_exists env_dots (py "docs") = true) by reflexivity.
  assert (H2 : Forall (fun g => sentences (extracted_text env_dots g) = [])
                 (find_files env_dots (py "docs"))).
  { assert (Hf : find_files env_dots (py "docs") = [broken_pdf; report_pdf])
      by (vm_compute; reflexivity).
    rewrite Hf. repeat constructor. }
  split; [exact H1|]. split; [exact H2|].
  exact (process_directory_no_units env_dots init (py "docs") world0 H1 H2).
Defined.

(** No argument; and the argument [docs] with a file system that
    refuses it. *)
Lemma main_usage_witness :
  main sample_env fs_too_long [py "ingest.py"] world0
  = (Exited (py "Usage: python ingest.py <directory_path>") 1, world0)
  /\ exists r w',
       process_directory_fs sample_env fs_too_long init (py "docs") world0
       = (r, w')
       /\ main sample_env fs_too_long [py "ingest.py"; py "docs"] world0
          = (Returned r, w')
       /\ forall e,
            r = inl e ->
            w' = world0
            /\ (fs_exists fs_too_long (py "docs") = inl e
                \/ exists ext,
                     ext ∈ supported_extensions
                     /\ fs_rglob fs_too_long (py "docs") (py "*" ++ ext)
                        = inl e).
Proof.
  split.
  - apply (proj1 (main_usage sample_env fs_too_long [py "ingest.py"]
                    world0)).
    simpl. lia.
  - exact (proj2 (main_usage sample_env fs_too_long
                    [py "ingest.py"; py "docs"] world0)
             (py "ingest.py") (py "docs") eq_refl).
Defined.

(** Two chunks in batches of 10: one batch. *)
Lemma batches_partition_witness :
  0 < batch_size init
  /\ exists starts,
       py_range 0 (len [chunk_short; chunk_bye]) (batch_size init)
       = inr starts
       /\ concat (batches_at init [chunk_short; chunk_bye] starts)
          = [chunk_short; chunk_bye]
       /\ Forall (fun batch => 1 <= len batch <= batch_size init)
            (batches_at init [chunk_short; chunk_bye] starts)
       /\ len starts
          = (len [chunk_short; chunk_bye] + batch_size init - 1)
            / batch_size init.
Proof.
  assert (H : 0 < batch_size init) by reflexivity.
  split; [exact H|].
  exact (batches_partition init [chunk_short; chunk_bye] H).
Defined.

(** The good PDF of the sample directory: its one request is answered,
    and followed by the insert of the row built from that answer. *)
Lemma process_file_order_witness :
  trace (snd (process_file sample_env init report_pdf world0))
  = trace world0
      ++ [Log INFO (Processing report_pdf)]
      ++ EmbeddingRequest (py "text-embedding-3-small")
           [py "Hello world. This is  a test. Bye"]
         :: [StoreInsert (py "document_chunks")
               (rows_from sample_env 0
                  (combine (file_chunks sample_env init report_pdf)
                     [[0.5%float; 0%float]]));
             Log INFO (StoredChunks 1);
             Sleep 100;
             Log INFO (SuccessfullyProcessed report_pdf 1)]
  /\ exists batch rest,
       file_batches sample_env init report_pdf !! 0%nat = Some batch
       /\ [py "Hello world. This is  a test. Bye"] = List.map content batch
       /\ [StoreInsert (py "document_chunks")
             (rows_from sample_env 0
                (combine (file_chunks sample_env init report_pdf)
                   [[0.5%float; 0%float]]));
           Log INFO (StoredChunks 1);
           Sleep 100;
           Log INFO (SuccessfullyProcessed report_pdf 1)]
          = StoreInsert (py "document_chunks")
              (rows_from sample_env 0
                 (combine batch [[0.5%float; 0%float]]))
            :: rest.
Proof.
  match goal with
  | |- ?A /\ _ => assert (H : A) by (vm_compute; reflexivity)
  end.
  split; [exact H|].
  destruct (proj2 (process_file_order sample_env init report_pdf world0)
              _ _ _ _ H) as (batch & Hb & _ & Htx & Hm).
  exists batch.
  change (embedding_service sample_env
            (world_after world0 [Log INFO (Processing report_pdf)])
            (py "text-embedding-3-small")
            [py "Hello world. This is  a test. Bye"])
    with (@inr exn _ (sample_items [py "Hello world. This is  a test. Bye"]))
    in Hm.
  cbv beta iota in Hm. destruct Hm as (rest & Hm).
  exists rest. split; [exact Hb|]. split; [exact Htx|]. exact Hm.
Defined.

(** The good PDF of the sample directory is stored whole. *)
Lemma process_file_stores_all_witness :
  0 < batch_size init
  /\ one_item_per_text sample_env
  /\ fst (process_file sample_env init report_pdf world0) = inr true
  /\ exists evs,
       trace (snd (process_file sample_env init report_pdf world0))
       = trace world0 ++ evs
       /\ file_chunks sample_env init report_pdf <> []
       /\ concat (embedding_inputs evs)
          = List.map content (file_chunks sample_env init report_pdf)
       /\ List.map row_content (concat (inserted_rows evs))
          = List.map content (file_chunks sample_env init report_pdf)
       /\ List.map row_chunk_index (concat (inserted_rows evs))
          = List.map (fun i => VInt (Z.of_nat i))
              (seq 0 (length (file_chunks sample_env init report_pdf)))
       /\ Forall (fun r =>
                    row_metadata r
                    = file_metadata report_pdf
                        (extracted_text sample_env report_pdf))
            (concat (inserted_rows evs)).
Proof.
  assert (H1 : 0 < batch_size init) by reflexivity.
  assert (H2 : one_item_per_text sample_env).
  { intros w model input data H. simpl in H.
    destruct input as [|x input]; [discriminate|].
    injection H as <-. unfold sample_items.
    now rewrite length_map, length_seq. }
  assert (H3 : fst (process_file sample_env init report_pdf world0)
               = inr true) by (vm_compute; reflexivity).
  split; [exact H1|]. split; [exact H2|]. split; [exact H3|].
  exact (process_file_stores_all sample_env init report_pdf world0 H1 H2 H3).
Defined.

(** With the embedding service down the good PDF fails too. *)
Lemma process_file_service_down_witness :
  0 < batch_size init
  /\ (forall w' model input,
         exists e, embedding_service env_down w' model input = inl e)
  /\ exists evs,
       fst (process_file env_down init report_pdf world0) = inr false
       /\ trace (snd (process_file env_down init report_pdf world0))
          = trace world0 ++ evs
       /\ inserted_rows evs = []
       /\ (length (embedding_inputs evs) <= 1)%nat.
Proof.
  assert (H1 : 0 < batch_size init) by reflexivity.
  assert (H2 : forall w' model input,
             exists e, embedding_service env_down w' model input = inl e)
    by (intros w' model input; now exists service_unavailable).
  split; [exact H1|]. split; [exact H2|].
  exact (process_file_service_down env_down init report_pdf world0 H1 H2).
Defined.

(** With both services up the good PDF is processed. *)
Lemma process_file_succeeds_witness :
  0 < batch_size init
  /\ (forall w' model input,
         exists data, embedding_service env_up w' model input = inr data)
  /\ (forall w' table rows,
         exists stored, store_service env_up w' table rows = inr stored)
  /\ sentences (extracted_text env_up report_pdf) <> []
  /\ fst (process_file env_up init report_pdf world0) = inr true.
Proof.
  assert (H1 : 0 < batch_size init) by reflexivity.
  assert (H2 : forall w' model input,
             exists data, embedding_service env_up w' model input = inr data)
    by (intros w' model input; now exists (sample_items input)).
  assert (H3 : forall w' table rows,
             exists stored, store_service env_up w' table rows = inr stored)
    by (intros w' table rows; now exists rows).
  assert (H4 : sentences (extracted_text env_up report_pdf) <> [])
    by (vm_compute; discriminate).
  split; [exact H1|]. split; [exact H2|]. split; [exact H3|].
  split; [exact H4|].
  exact (process_file_succeeds env_up init report_pdf world0 H1 H2 H3 H4).
Defined.
